(** * Portfolio value derivation of [src/Chart.tsx]

    A shallow embedding of [formatDate], [calculatePortfolioValue] and the
    state handling of [PortfolioValueChart], with the properties the
    specification states about them.

    Conventions of the embedding.
    - A JavaScript [number] is an integer ([Z]): share counts are whole and
      amounts of money are counted in thousandths of the currency unit, so
      that the literals 86.31 and 115.355 of the fixture are exact.  Sums
      and products are those of the integers, which are the results of the
      code as long as no operation rounds; [countsExactly] states that of
      the counts of shares.  The time value of a [Date] is an [option Z]:
      [None] is the NaN of an invalid date.
    - A thrown exception is the [None] of an [option] result.
    - An object used as a dictionary is an association list in the order
      [Object.keys] and [Object.entries] enumerate it.  [get] reads its own
      properties; [member] reads the members it inherits from
      [Object.prototype] as well, as a lookup by a name does.
    - [sort] is the stable insertion sort.  For a comparator that subtracts
      keys every engine returns what it returns; where the comparator can
      answer NaN the order is up to the engine, and [engineSort] stands
      for the sort of the engine, of which [conforming] states what the
      language guarantees.  [calculatePortfolioValue_engine] is the call
      with [engineSort] and [member]; [calculatePortfolioValue] is the call
      with [sort] and [get], and the two agree when every transaction date
      is a date ([engine_of_model]).
    - The arrays and objects a caller can reach live in a [Heap], and so
      does the array a call sorts in place; the other arrays and objects a
      call creates for itself are values. *)

From Stdlib Require Import ZArith List String Ascii Bool Lia Permutation Sorted.
Import ListNotations.
Open Scope Z_scope.

Set Implicit Arguments.

(* ================================================================== *)
(** * ECMAScript dates *)
(* ================================================================== *)

Module EcmaDate.

Definition msPerDay : Z := 86400000.

(** The largest magnitude of a time value: 8.64e15 ms. *)
Definition maxTimeValue : Z := 8640000000000000.

(** [TimeClip]: a time value out of range makes an invalid date. *)
Definition TimeClip (t : Z) : option Z :=
  if Z.abs t <=? maxTimeValue then Some t else None.

Definition Day (t : Z) : Z := t / msPerDay.

Definition TimeWithinDay (t : Z) : Z := t mod msPerDay.

Definition DayFromYear (y : Z) : Z :=
  365 * (y - 1970) + (y - 1969) / 4 - (y - 1901) / 100 + (y - 1601) / 400.

Definition isLeapYear (y : Z) : bool :=
  ((y mod 4 =? 0) && negb (y mod 100 =? 0)) || (y mod 400 =? 0).

Definition InLeapYear (y : Z) : Z := if isLeapYear y then 1 else 0.

Definition DaysInYear (y : Z) : Z := 365 + InLeapYear y.

(** [YearFromTime] on day numbers: the largest year that starts on or before
    day [d].  The quotient by the mean year length is off by one year at
    most, which the two tests repair. *)
Definition YearFromDay (d : Z) : Z :=
  let y := 1970 + (400 * d) / 146097 in
  if d <? DayFromYear y then y - 1
  else if DayFromYear (y + 1) <=? d then y + 1
  else y.

(** First day of month [m] (0 = January) within its year; [leap] is
    [InLeapYear].  [monthStart 12] is the length of the year. *)
Definition monthStart (m leap : Z) : Z :=
  match m with
  | 0 => 0
  | 1 => 31
  | 2 => 59 + leap
  | 3 => 90 + leap
  | 4 => 120 + leap
  | 5 => 151 + leap
  | 6 => 181 + leap
  | 7 => 212 + leap
  | 8 => 243 + leap
  | 9 => 273 + leap
  | 10 => 304 + leap
  | 11 => 334 + leap
  | _ => 365 + leap
  end.

(** [MonthFromTime] on the day within the year. *)
Definition MonthFromDay (dwy leap : Z) : Z :=
  if dwy <? 31 then 0
  else if dwy <? 59 + leap then 1
  else if dwy <? 90 + leap then 2
  else if dwy <? 120 + leap then 3
  else if dwy <? 151 + leap then 4
  else if dwy <? 181 + leap then 5
  else if dwy <? 212 + leap then 6
  else if dwy <? 243 + leap then 7
  else if dwy <? 273 + leap then 8
  else if dwy <? 304 + leap then 9
  else if dwy <? 334 + leap then 10
  else 11.

(** A calendar date: year, month (1 to 12) and day of the month. *)
Record Civil : Type := mkCivil { cYear : Z; cMonth : Z; cDate : Z }.

Definition civilFromDay (d : Z) : Civil :=
  let y := YearFromDay d in
  let leap := InLeapYear y in
  let dwy := d - DayFromYear y in
  let m := MonthFromDay dwy leap in
  mkCivil y (m + 1) (dwy - monthStart m leap + 1).

(** [MakeDay] for a month in range, with the month counted from 1. *)
Definition MakeDay (y m dt : Z) : Z :=
  DayFromYear y + monthStart (m - 1) (InLeapYear y) + dt - 1.

Definition MakeDate (day time : Z) : Z := day * msPerDay + time.

Definition daysInMonth (y m : Z) : Z :=
  monthStart m (InLeapYear y) - monthStart (m - 1) (InLeapYear y).

(** ** Decimal digits *)

Definition digitChar (n : Z) : ascii :=
  ascii_of_nat (Z.to_nat (48 + n)).

Definition digitValue (c : ascii) : option Z :=
  let n := Z.of_nat (nat_of_ascii c) in
  if (48 <=? n) && (n <=? 57) then Some (n - 48) else None.

Definition pad2 (n : Z) (rest : string) : string :=
  String (digitChar (n / 10 mod 10)) (String (digitChar (n mod 10)) rest).

Definition pad3 (n : Z) (rest : string) : string :=
  String (digitChar (n / 100 mod 10)) (pad2 n rest).

Definition pad4 (n : Z) (rest : string) : string :=
  String (digitChar (n / 1000 mod 10)) (pad3 n rest).

Definition pad6 (n : Z) (rest : string) : string :=
  String (digitChar (n / 100000 mod 10))
    (String (digitChar (n / 10000 mod 10)) (pad4 n rest)).

(** The value of a run of decimal digits, most significant first. *)
Fixpoint decimal (acc : Z) (cs : list ascii) : option Z :=
  match cs with
  | [] => Some acc
  | c :: cs' =>
      match digitValue c with
      | Some v => decimal (10 * acc + v) cs'
      | None => None
      end
  end.

(** ** [Date.prototype.toISOString] *)

(** The year of the ISO format: four digits from 0 to 9999, otherwise a
    sign and six digits. *)
Definition isoYear (y : Z) (rest : string) : string :=
  if (0 <=? y) && (y <=? 9999) then pad4 y rest
  else if y <? 0 then String "-"%char (pad6 (- y) rest)
  else String "+"%char (pad6 y rest).

Definition isoDate (c : Civil) (rest : string) : string :=
  isoYear (cYear c)
    (String "-"%char (pad2 (cMonth c) (String "-"%char (pad2 (cDate c) rest)))).

Definition isoTime (ms : Z) : string :=
  pad2 (ms / 3600000)
    (String ":"%char (pad2 (ms / 60000 mod 60)
       (String ":"%char (pad2 (ms / 1000 mod 60)
          (String "."%char (pad3 (ms mod 1000) "Z"%string)))))).

(** [toISOString] of the date with time value [tv]; [None] is the
    [RangeError] thrown for an invalid date. *)
Definition toISOString (tv : option Z) : option string :=
  match tv with
  | None => None
  | Some t =>
      Some (isoDate (civilFromDay (Day t))
              (String "T"%char (isoTime (TimeWithinDay t))))
  end.

(** The ISO calendar date of day number [d]. *)
Definition isoDay (d : Z) : string := isoDate (civilFromDay d) EmptyString.

(** [s.split(sep)[0]]: the characters before the first [sep]. *)
Fixpoint splitHead (sep : ascii) (s : string) : string :=
  match s with
  | EmptyString => EmptyString
  | String c s' =>
      if Ascii.eqb c sep then EmptyString else String c (splitHead sep s')
  end.

(** ** [Date.parse] *)

Definition dash (c : ascii) : bool := Ascii.eqb c "-"%char.

(** The time value of the calendar date [y]-[m]-[d] at 00:00 UTC, when the
    month and the day exist. *)
Definition dateOnly (y m d : Z) : option Z :=
  if (1 <=? m) && (m <=? 12) && (1 <=? d) && (d <=? daysInMonth y m)
  then TimeClip (MakeDate (MakeDay y m d) 0)
  else None.

(** The date-only forms [YYYY-MM-DD] and [+YYYYYY-MM-DD], [-YYYYYY-MM-DD] of
    the Date Time String Format, which are read as UTC.  Year [-000000] is
    not an ISO year. *)
Definition parseISODate (s : string) : option Z :=
  match list_ascii_of_string s with
  | [y1; y2; y3; y4; s1; m1; m2; s2; d1; d2] =>
      if dash s1 && dash s2 then
        match decimal 0 [y1; y2; y3; y4], decimal 0 [m1; m2], decimal 0 [d1; d2] with
        | Some y, Some m, Some d => dateOnly y m d
        | _, _, _ => None
        end
      else None
  | [sg; y1; y2; y3; y4; y5; y6; s1; m1; m2; s2; d1; d2] =>
      if dash s1 && dash s2 then
        match decimal 0 [y1; y2; y3; y4; y5; y6], decimal 0 [m1; m2], decimal 0 [d1; d2] with
        | Some y, Some m, Some d =>
            if Ascii.eqb sg "+"%char then dateOnly y m d
            else if dash sg && negb (y =? 0) then dateOnly (- y) m d
            else None
        | _, _, _ => None
        end
      else None
  | _ => None
  end.

End EcmaDate.

Import EcmaDate.

(* ================================================================== *)
(** * Arrays, sets and dictionaries of the language *)
(* ================================================================== *)

Section JsArray.

Variable A : Type.

(** The comparator of [Array.prototype.sort] returns a number; [None] is
    NaN, which the sort reads as 0. *)
Variable comparefn : A -> A -> option Z.

Definition SortCompare (x y : A) : Z :=
  match comparefn x y with
  | Some v => v
  | None => 0
  end.

(** [Array.prototype.sort] is stable.  It is modelled by insertion: an
    element is moved behind the elements it compares greater than.  With a
    comparator that is consistent every stable sort returns this result;
    with one that is not, the language leaves the order to the engine. *)
Fixpoint insertSorted (x : A) (l : list A) : list A :=
  match l with
  | [] => [x]
  | y :: l' =>
      if 0 <? SortCompare x y then y :: insertSorted x l' else x :: l
  end.

Fixpoint sort (l : list A) : list A :=
  match l with
  | [] => []
  | x :: l' => insertSorted x (sort l')
  end.

End JsArray.

(** [new Set(iterable)]: the distinct strings in the order of their first
    occurrence; [Array.from] of the set is this list. *)
Definition setAdd (s : list string) (x : string) : list string :=
  if existsb (String.eqb x) s then s else s ++ [x].

Definition newSet (l : list string) : list string := fold_left setAdd l [].

(** An object used as a dictionary.  Its keys here are ISO dates, which are
    not array indices, so [Object.keys] lists them in the order of their
    first assignment. *)
Definition Dict (V : Type) : Type := list (string * V).

Fixpoint assign (V : Type) (k : string) (v : V) (o : Dict V) : Dict V :=
  match o with
  | [] => [(k, v)]
  | (k', v') :: o' =>
      if String.eqb k' k then (k', v) :: o' else (k', v') :: assign k v o'
  end.

(** [o[k]]; [None] is [undefined]. *)
Fixpoint get (V : Type) (k : string) (o : Dict V) : option V :=
  match o with
  | [] => None
  | (k', v') :: o' => if String.eqb k' k then Some v' else get k o'
  end.

Definition keys (V : Type) (o : Dict V) : list string := map fst o.

(* ================================================================== *)
(** * The data of the chart *)
(* ================================================================== *)

(** [action: 'B' | 'S'] *)
Inductive Action : Type := Buy | Sell.

Record Transaction : Type := mkTransaction {
  action : Action;
  date : string;
  price : Z;
  quantity : Z;
  positionAveragePrice : option Z
}.

Record PriceData : Type := mkPriceData {
  close : Z;
  timestamp : Z
}.

(** [StockPriceData]: the entries in the order [Object.entries] lists
    them. *)
Definition StockPriceData : Type := list (string * PriceData).

(** [PortfolioValueData], with fields [date] and [value]. *)
Record PortfolioValueData : Type := mkPoint {
  pointDate : string;
  value : Z
}.

(* ================================================================== *)
(** * [formatDate] and [calculatePortfolioValue] *)
(* ================================================================== *)

(** [new Date(epoch * 1000).toISOString().split('T')[0]] *)
Definition formatDate (epoch : Z) : option string :=
  option_map (splitHead "T"%char) (toISOString (TimeClip (epoch * 1000))).

Definition applyTransaction (currentShares : Z) (transaction : Transaction) : Z :=
  match action transaction with
  | Buy => currentShares + quantity transaction
  | Sell => currentShares - quantity transaction
  end.

(** The [forEach] over [Object.entries(stockPrices)]; it stops at the first
    entry whose date cannot be formatted. *)
Fixpoint formatStockPrices (entries : StockPriceData)
    (formattedStockPrices : Dict Z) : option (Dict Z) :=
  match entries with
  | [] => Some formattedStockPrices
  | (epoch, priceData) :: rest =>
      match formatDate (timestamp priceData) with
      | Some dateKey =>
          formatStockPrices rest
            (assign dateKey (close priceData) formattedStockPrices)
      | None => None
      end
  end.

(** [t => t.date === date] *)
Definition dated (d : string) (t : Transaction) : bool := String.eqb (date t) d.

(** The two variables the walk over the days updates. *)
Record Walk : Type := mkWalk {
  currentShares : Z;
  portfolioValues : list PortfolioValueData
}.

(** The body of [sortedDates.forEach]. *)
Definition visitDate (sortedTransactions : list Transaction)
    (formattedStockPrices : Dict Z) (w : Walk) (d : string) : Walk :=
  let shares :=
    fold_left applyTransaction
      (filter (dated d) sortedTransactions)
      (currentShares w) in
  match get d formattedStockPrices with
  | Some stockPrice =>
      if 0 <? shares
      then mkWalk shares (portfolioValues w ++ [mkPoint d (shares * stockPrice)])
      else mkWalk shares (portfolioValues w)
  | None => mkWalk shares (portfolioValues w)
  end.

(** ** The members an object inherits *)

(** The names of the members that every object inherits from
    [Object.prototype]. *)
Definition inheritedNames : list string :=
  [ "constructor"; "__defineGetter__"; "__defineSetter__"; "hasOwnProperty";
    "__lookupGetter__"; "__lookupSetter__"; "isPrototypeOf";
    "propertyIsEnumerable"; "toString"; "valueOf"; "__proto__";
    "toLocaleString" ]%string.

Definition inherited (k : string) : bool :=
  existsb (String.eqb k) inheritedNames.

(** What [o[k]] is for the object [formattedStockPrices], which is created
    as [{}]: a number of its own, a member it inherits, which is a function
    or an object, or [undefined]. *)
Inductive Member : Type :=
| OwnNumber (v : Z)
| InheritedMember
| UndefinedMember.

Definition member (k : string) (o : Dict Z) : Member :=
  match get k o with
  | Some v => OwnNumber v
  | None => if inherited k then InheritedMember else UndefinedMember
  end.

(** An element pushed to [portfolioValues]: [value] is a number, or it is
    NaN, which the product of the shares and a function or object is. *)
Inductive Pushed : Type :=
| NumberPoint (p : PortfolioValueData)
| NaNPoint (d : string).

Definition pushedDate (q : Pushed) : string :=
  match q with
  | NumberPoint p => pointDate p
  | NaNPoint d => d
  end.

Record EngineWalk : Type := mkEngineWalk {
  shares : Z;
  pushed : list Pushed
}.

(** The body of [sortedDates.forEach], with the members that
    [formattedStockPrices] inherits: [stockPrice !== undefined] holds for
    them too. *)
Definition visitDate_engine (sortedTransactions : list Transaction)
    (formattedStockPrices : Dict Z) (w : EngineWalk) (d : string) : EngineWalk :=
  let held :=
    fold_left applyTransaction
      (filter (dated d) sortedTransactions)
      (shares w) in
  match member d formattedStockPrices with
  | OwnNumber stockPrice =>
      if 0 <? held
      then mkEngineWalk held (pushed w ++ [NumberPoint (mkPoint d (held * stockPrice))])
      else mkEngineWalk held (pushed w)
  | InheritedMember =>
      if 0 <? held
      then mkEngineWalk held (pushed w ++ [NaNPoint d])
      else mkEngineWalk held (pushed w)
  | UndefinedMember => mkEngineWalk held (pushed w)
  end.

(** ** Sample data *)

(** An engine that reads the ISO format only. *)
Definition noHeuristics (s : string) : option Z := None.

(** An engine that also reads the date-time form of 4 January 2021,
    00:00 UTC. *)
Definition readsInstant (s : string) : option Z :=
  if String.eqb s "2021-01-04T00:00:00.000Z" then Some 1609718400000 else None.

(** Closes of 100 on 4 January 2021 and 110 on 5 January 2021. *)
Definition twoDays : StockPriceData :=
  [ ("1609718400"%string, mkPriceData 100 1609718400);
    ("1609804800"%string, mkPriceData 110 1609804800) ].

(** Two observations of 4 January 2021, at 00:00 and at 12:00 UTC. *)
Definition sameDay : StockPriceData :=
  [ ("1609718400"%string, mkPriceData 100 1609718400);
    ("1609761600"%string, mkPriceData 105 1609761600) ].


(** A timestamp beyond the range of [Date]. *)
Definition beyondRange : StockPriceData :=
  [ ("10000000000000"%string, mkPriceData 100 10000000000000) ].

(** A close of 120 on 6 January 2021. *)
Definition laterDay : StockPriceData :=
  [ ("1609891200"%string, mkPriceData 120 1609891200) ].

Definition buyFive : list Transaction :=
  [ mkTransaction Buy "2021-01-04" 86310 5 None ].

Definition buyFiveOtherPrice : list Transaction :=
  [ mkTransaction Buy "2021-01-04" 90000 5 (Some 90000) ].

Definition sellFive : list Transaction :=
  [ mkTransaction Sell "2021-01-04" 86310 5 None ].

Definition sellMinusFive : list Transaction :=
  [ mkTransaction Sell "2021-01-04" 86310 (-5) None ].

(** The second date is not a date. *)
Definition unreadable : list Transaction :=
  [ mkTransaction Buy "2021-01-05" 86310 5 None;
    mkTransaction Buy "soon" 86310 5 None ].

(** Two strings for one calendar day. *)
Definition twoSpellings : list Transaction :=
  [ mkTransaction Buy "2021-01-04" 86310 1 None;
    mkTransaction Buy "2021-01-04T00:00:00.000Z" 86310 5 None ].

Definition laterFirst : list Transaction :=
  [ mkTransaction Buy "2021-01-05" 86310 5 None;
    mkTransaction Buy "2021-01-04" 86310 5 None ].

Definition buyThenSell : list Transaction :=
  [ mkTransaction Buy "2021-01-04" 86310 5 None;
    mkTransaction Sell "2021-01-05" 86310 5 None ].

(** A date that names a member of [Object.prototype]. *)
Definition buyToString : list Transaction :=
  [ mkTransaction Buy "toString" 86310 5 None ].


Section Chart.

(** What [Date.parse] makes of a string that is not in the ISO format is
    left to the engine. *)
Variable implParse : string -> option Z.

Definition Date_parse (s : string) : option Z :=
  match parseISODate s with
  | Some t => Some t
  | None =>
      match implParse s with
      | Some t => TimeClip t
      | None => None
      end
  end.

(** [new Date(s).getTime()] *)
Definition getTime (s : string) : option Z := Date_parse s.

(** [(a, b) => new Date(a).getTime() - new Date(b).getTime()] *)
Definition compareDates (a b : string) : option Z :=
  match getTime a, getTime b with
  | Some ta, Some tb => Some (ta - tb)
  | _, _ => None
  end.

Definition compareTransactions (a b : Transaction) : option Z :=
  compareDates (date a) (date b).

(** The days that are walked, from the sorted transactions and the
    day-keyed prices. *)
Definition sortedDatesOf (sortedTransactions : list Transaction)
    (formattedStockPrices : Dict Z) : list string :=
  sort compareDates
    (newSet (map date sortedTransactions ++ keys formattedStockPrices)).

(** [calculatePortfolioValue] from the sorted copy of the transactions
    on. *)
Definition derive (sortedTransactions : list Transaction)
    (stockPrices : StockPriceData) : option (list PortfolioValueData) :=
  match formatStockPrices stockPrices [] with
  | Some formattedStockPrices =>
      Some (portfolioValues
              (fold_left (visitDate sortedTransactions formattedStockPrices)
                 (sortedDatesOf sortedTransactions formattedStockPrices)
                 (mkWalk 0 [])))
  | None => None
  end.

(** [calculatePortfolioValue] on the contents of its arguments; [None] is
    the [RangeError] of [toISOString]. *)
Definition calculatePortfolioValue (transactions : list Transaction)
    (stockPrices : StockPriceData) : option (list PortfolioValueData) :=
  derive (sort compareTransactions transactions) stockPrices.

(** ** The call on the heap *)

(** The objects a caller can hold a reference to. *)
Inductive Obj : Type :=
| TransactionArray (a : list Transaction)
| PriceObject (o : StockPriceData).

Definition Ref : Type := nat.

Definition Heap : Type := list Obj.

Fixpoint store (r : Ref) (v : Obj) (h : Heap) : Heap :=
  match h, r with
  | [], _ => []
  | _ :: h', O => v :: h'
  | x :: h', S r' => x :: store r' v h'
  end.

Definition readArray (r : Ref) (h : Heap) : option (list Transaction) :=
  match nth_error h r with
  | Some (TransactionArray a) => Some a
  | _ => None
  end.

(** [Object.entries(o)] *)
Definition entries (r : Ref) (h : Heap) : option StockPriceData :=
  match nth_error h r with
  | Some (PriceObject o) => Some o
  | _ => None
  end.

(** [[...a]]: a new array with the elements of [a]. *)
Definition spread (r : Ref) (h : Heap) : option (Ref * Heap) :=
  match readArray r h with
  | Some a => Some (List.length h, h ++ [TransactionArray a])
  | None => None
  end.

(** [a.sort(comparefn)] sorts the array in place. *)
Definition sortInPlace (r : Ref) (h : Heap) : option Heap :=
  match readArray r h with
  | Some a => Some (store r (TransactionArray (sort compareTransactions a)) h)
  | None => None
  end.

(** The call [calculatePortfolioValue(transactions, stockPrices)] with the
    heap it leaves.  The outer [None] is a reference to an object of the
    wrong kind, which the types of the program exclude. *)
Definition calculatePortfolioValueAt (transactions stockPrices : Ref)
    (h : Heap) : option (Heap * option (list PortfolioValueData)) :=
  match spread transactions h with
  | Some (sortedTransactions, h1) =>
      match sortInPlace sortedTransactions h1 with
      | Some h2 =>
          match readArray sortedTransactions h2, entries stockPrices h2 with
          | Some sorted, Some prices => Some (h2, derive sorted prices)
          | _, _ => None
          end
      | None => None
      end
  | None => None
  end.

(** [transactions.sort(...)] without the copy, for comparison. *)
Definition sortCallerArray (transactions : Ref) (h : Heap) : option Heap :=
  sortInPlace transactions h.

(** ** The state of [PortfolioValueChart] *)

(** The transactions of GOOGL in [stockToTransactions]. *)
Definition GOOGL : list Transaction :=
  [ mkTransaction Buy "2021-01-04" 86310 5 None;
    mkTransaction Buy "2022-01-04" 144400 5 None;
    mkTransaction Sell "2023-07-26" 129270 5 (Some 115355) ].

(** How the request for [/data/Graph.json] ends. *)
Inductive FetchOutcome : Type :=
| Rejected
    (** [fetch] rejects *)
| Responded (ok : bool) (status : Z) (body : option StockPriceData).
    (** a response; [body] is [None] when [response.json()] rejects *)

(** What the [catch] receives. *)
Inductive FetchError : Type :=
| NetworkError
| HttpError (status : Z)
| ParseError.

Record Component : Type := mkComponent {
  portfolioData : list PortfolioValueData;
  stockPrices : option StockPriceData;
  (** the errors written by [console.error] *)
  console : list FetchError;
  (** the arguments of the calls of [calculatePortfolioValue] *)
  derivations : list StockPriceData;
  (** an exception no handler caught *)
  uncaught : bool
}.

Definition mounted : Component := mkComponent [] None [] [] false.

(** [fetchStockPrices] once the request has ended. *)
Definition fetchStockPrices (outcome : FetchOutcome) (c : Component) : Component :=
  let failed (e : FetchError) :=
    mkComponent (portfolioData c) (stockPrices c) (console c ++ [e])
      (derivations c) (uncaught c) in
  match outcome with
  | Rejected => failed NetworkError
  | Responded false status _ => failed (HttpError status)
  | Responded true _ None => failed ParseError
  | Responded true _ (Some data) =>
      mkComponent (portfolioData c) (Some data) (console c)
        (derivations c) (uncaught c)
  end.

(** The effect that depends on [stockPrices]. *)
Definition deriveEffect (c : Component) : Component :=
  match stockPrices c with
  | Some prices =>
      match calculatePortfolioValue GOOGL prices with
      | Some portfolioValues =>
          mkComponent portfolioValues (stockPrices c) (console c)
            (derivations c ++ [prices]) (uncaught c)
      | None =>
          mkComponent (portfolioData c) (stockPrices c) (console c)
            (derivations c ++ [prices]) true
      end
  | None => c
  end.

(** The state of the component from its mounting to the end of the
    request: both effects run after the first render, and the second runs
    again when [setStockPrices] has changed its dependency. *)
Definition PortfolioValueChart (outcome : FetchOutcome) : Component :=
  let c := fetchStockPrices outcome (deriveEffect mounted) in
  match stockPrices c with
  | Some _ => deriveEffect c
  | None => c
  end.

(** ** Vocabulary of the specification *)

Definition signedQuantity (t : Transaction) : Z :=
  match action t with
  | Buy => quantity t
  | Sell => - quantity t
  end.

Definition sumZ (l : list Z) : Z := fold_right Z.add 0 l.

(** The days up to and including [d]. *)
Fixpoint through (d : string) (days : list string) : list string :=
  match days with
  | [] => []
  | x :: rest => if String.eqb x d then [x] else x :: through d rest
  end.

(** The running count of shares, from 0, once the transactions of the days
    [visited] have been applied day by day. *)
Definition sharesHeld (transactions : list Transaction)
    (visited : list string) : Z :=
  fold_left
    (fun held day => fold_left applyTransaction (filter (dated day) transactions) held)
    visited 0.

(** A point is emitted on day [d]: the day has a price and shares are
    held. *)
Definition emits (transactions : list Transaction) (prices : Dict Z)
    (days : list string) (d : string) : bool :=
  match get d prices with
  | Some _ => 0 <? sharesHeld transactions (through d days)
  | None => false
  end.

(** The point of day [d]: the shares held times the price of the day. *)
Definition pointOn (transactions : list Transaction) (prices : Dict Z)
    (days : list string) (d : string) : PortfolioValueData :=
  match get d prices with
  | Some stockPrice =>
      mkPoint d (sharesHeld transactions (through d days) * stockPrice)
  | None => mkPoint d 0
  end.

(** The day key of a price entry. *)
Definition keyOf (e : string * PriceData) : option string :=
  formatDate (timestamp (snd e)).

(** [a] is an earlier calendar date than [b]. *)
Definition earlier (a b : string) : Prop :=
  match getTime a, getTime b with
  | Some ta, Some tb => ta < tb
  | _, _ => False
  end.

Definition ascendingByDate (points : list PortfolioValueData) : Prop :=
  StronglySorted (fun p q => earlier (pointDate p) (pointDate q)) points.

(** The time of a date string, 0 for a string that is no date. *)
Definition timeOr0 (s : string) : Z :=
  match getTime s with
  | Some t => t
  | None => 0
  end.

(** The calendar day of a date string, as a day number. *)
Definition dayOf (s : string) : option Z := option_map Day (getTime s).

(** A timestamp in seconds that makes a valid [Date]. *)
Definition validTimestamp (epoch : Z) : Prop :=
  Z.abs (epoch * 1000) <= maxTimeValue.

(** Two transactions that differ in [price] and [positionAveragePrice] at
    most. *)
Definition sameTrade (a b : Transaction) : Prop :=
  action a = action b /\ date a = date b /\ quantity a = quantity b.

(** A date string written the way [formatDate] writes a day. *)
Definition dayFormatted (s : string) : Prop :=
  exists epoch, formatDate epoch = Some s.

(** The net quantity, Buys less Sells, of the transactions dated on or
    before the date [d]. *)
Definition netUpTo (transactions : list Transaction) (d : string) : Z :=
  sumZ (map signedQuantity
          (filter (fun t => timeOr0 (date t) <=? timeOr0 d) transactions)).

(** The quantities, whole numbers, add up in magnitude to at most 2^53.
    Every sum of some of them, in any order, is then a whole number that a
    Number holds exactly, and no addition of the walk rounds. *)
Definition countsExactly (transactions : list Transaction) : Prop :=
  sumZ (map (fun t => Z.abs (quantity t)) transactions) <= 2 ^ 53.


(** ** The call in an engine *)

(** What the [Array.prototype.sort] of the engine returns. *)
Variable engineSort : forall A : Type, (A -> A -> option Z) -> list A -> list A.

(** What the language asks of an engine: the sorted array holds the
    elements of the array; for a comparator that subtracts keys, which is a
    consistent one, it is in the order of the keys and the elements of one
    key keep their order.  And the name of a member of [Object.prototype]
    is no date for [Date]. *)
Definition conforming : Prop :=
  (forall (A : Type) (comparefn : A -> A -> option Z) (l : list A),
      Permutation (engineSort comparefn l) l) /\
  (forall (A : Type) (comparefn : A -> A -> option Z) (key : A -> Z) (l : list A),
      (forall x y, In x l -> In y l -> comparefn x y = Some (key x - key y)) ->
      StronglySorted (fun a b => key a <= key b) (engineSort comparefn l) /\
      forall k, filter (fun a => key a =? k) (engineSort comparefn l)
                = filter (fun a => key a =? k) l) /\
  Forall (fun k => getTime k = None) inheritedNames.

(** The days the engine walks. *)
Definition sortedDates_engine (sortedTransactions : list Transaction)
    (formattedStockPrices : Dict Z) : list string :=
  engineSort compareDates
    (newSet (map date sortedTransactions ++ keys formattedStockPrices)).

(** [calculatePortfolioValue] as an engine runs it: with the sort of the
    engine and with the members that [formattedStockPrices] inherits.
    [None] is the [RangeError] of [toISOString]. *)
Definition calculatePortfolioValue_engine (transactions : list Transaction)
    (stockPrices : StockPriceData) : option (list Pushed) :=
  let sortedTransactions := engineSort compareTransactions transactions in
  match formatStockPrices stockPrices [] with
  | Some formattedStockPrices =>
      Some (pushed
              (fold_left (visitDate_engine sortedTransactions formattedStockPrices)
                 (sortedDates_engine sortedTransactions formattedStockPrices)
                 (mkEngineWalk 0 [])))
  | None => None
  end.

(** A point is pushed on day [d]: the dictionary has a member of that
    name, its own or inherited, and shares are held. *)
Definition emitsMember (transactions : list Transaction) (prices : Dict Z)
    (days : list string) (d : string) : bool :=
  match member d prices with
  | UndefinedMember => false
  | _ => 0 <? sharesHeld transactions (through d days)
  end.

(** What is pushed on day [d]. *)
Definition pushedOn (transactions : list Transaction) (prices : Dict Z)
    (days : list string) (d : string) : Pushed :=
  match member d prices with
  | OwnNumber stockPrice =>
      NumberPoint (mkPoint d (sharesHeld transactions (through d days) * stockPrice))
  | _ => NaNPoint d
  end.

(** The transactions that the walk has applied after the days [visited], in
    the order in which it applies them. *)
Definition appliedThrough (sortedTransactions : list Transaction)
    (visited : list string) : list Transaction :=
  flat_map (fun day => filter (dated day) sortedTransactions) visited.

(** The calendar days of the elements whose date is a date. *)
Definition calendarDays (out : list Pushed) : list Z :=
  flat_map (fun q => match dayOf (pushedDate q) with
                     | Some D => [D]
                     | None => []
                     end) out.

Definition ascendingPushed (out : list Pushed) : Prop :=
  StronglySorted (fun a b => earlier (pushedDate a) (pushedDate b)) out.

(* ================================================================== *)
(** * Facts about dates *)
(* ================================================================== *)

Local Ltac divmod := Z.div_mod_to_equations; lia.

(** Evaluates the month table at the closed month numbers of the goal. *)
Local Ltac months :=
  repeat match goal with
         | |- context [monthStart ?e _] =>
             let v := eval vm_compute in e in progress change e with v
         end;
  cbv beta iota delta [monthStart].

Lemma DayFromYear_succ (y : Z) :
  DayFromYear (y + 1) = DayFromYear y + DaysInYear y.
Proof.
  unfold DaysInYear, InLeapYear, isLeapYear, DayFromYear.
  destruct (Z.eqb_spec (y mod 4) 0); destruct (Z.eqb_spec (y mod 100) 0);
    destruct (Z.eqb_spec (y mod 400) 0); cbn [andb orb negb]; divmod.
Qed.

Lemma YearFromDay_spec (d : Z) :
  DayFromYear (YearFromDay d) <= d < DayFromYear (YearFromDay d + 1).
Proof.
  unfold YearFromDay.
  set (y := 1970 + 400 * d / 146097).
  destruct (Z.ltb_spec d (DayFromYear y)) as [H1 | H1].
  - replace (y - 1 + 1) with y by lia. split; [| exact H1].
    unfold DayFromYear in *. subst y. divmod.
  - destruct (Z.leb_spec (DayFromYear (y + 1)) d) as [H2 | H2].
    + split; [exact H2 |].
      unfold DayFromYear in *. subst y. divmod.
    + lia.
Qed.

Lemma DayWithinYear_range (d : Z) :
  0 <= d - DayFromYear (YearFromDay d) < DaysInYear (YearFromDay d).
Proof.
  pose proof (YearFromDay_spec d) as H.
  rewrite DayFromYear_succ in H. lia.
Qed.

Lemma InLeapYear_range (y : Z) : 0 <= InLeapYear y <= 1.
Proof. unfold InLeapYear. destruct (isLeapYear y); lia. Qed.

(** The calendar date of a day is a date that exists, and [MakeDay] leads
    back to the day. *)
Lemma civilFromDay_valid (d : Z) :
  let c := civilFromDay d in
  1 <= cMonth c <= 12 /\
  1 <= cDate c <= daysInMonth (cYear c) (cMonth c) /\
  MakeDay (cYear c) (cMonth c) (cDate c) = d.
Proof.
  pose proof (DayWithinYear_range d) as Hr.
  unfold DaysInYear in Hr.
  unfold civilFromDay, daysInMonth, MakeDay; cbn [cYear cMonth cDate].
  pose proof (InLeapYear_range (YearFromDay d)) as Hl.
  set (y := YearFromDay d) in *.
  set (leap := InLeapYear y) in *.
  set (dwy := d - DayFromYear y) in *.
  unfold MonthFromDay.
  repeat match goal with
         | |- context [?a <? ?b] => destruct (Z.ltb_spec a b)
         end;
    months; lia.
Qed.

Lemma civilFromDay_year_range (d : Z) :
  - 100000000 <= d <= 100000000 ->
  - 271821 <= cYear (civilFromDay d) <= 275760.
Proof.
  intros Hd. pose proof (YearFromDay_spec d) as H.
  cbn [civilFromDay cYear].
  set (y := YearFromDay d) in *.
  unfold DayFromYear in H. divmod.
Qed.

Lemma digitValue_digitChar (k : Z) :
  0 <= k <= 9 -> digitValue (digitChar k) = Some k.
Proof.
  intros H.
  assert (k = 0 \/ k = 1 \/ k = 2 \/ k = 3 \/ k = 4 \/ k = 5 \/ k = 6 \/
          k = 7 \/ k = 8 \/ k = 9) as C by lia.
  repeat (destruct C as [-> | C]; [reflexivity |]). subst k. reflexivity.
Qed.

Lemma digitChar_not_T (k : Z) :
  0 <= k <= 9 -> Ascii.eqb (digitChar k) "T"%char = false.
Proof.
  intros H.
  assert (k = 0 \/ k = 1 \/ k = 2 \/ k = 3 \/ k = 4 \/ k = 5 \/ k = 6 \/
          k = 7 \/ k = 8 \/ k = 9) as C by lia.
  repeat (destruct C as [-> | C]; [reflexivity |]). subst k. reflexivity.
Qed.

Lemma decimal_cons (acc k : Z) (cs : list ascii) :
  0 <= k <= 9 -> decimal acc (digitChar k :: cs) = decimal (10 * acc + k) cs.
Proof. intros H. cbn [decimal]. now rewrite digitValue_digitChar. Qed.

Lemma digit_range (n : Z) : 0 <= n mod 10 <= 9.
Proof. pose proof (Z.mod_pos_bound n 10). lia. Qed.

Local Ltac digits :=
  repeat (rewrite decimal_cons by apply digit_range); cbn [decimal].

Lemma dateOnly_valid (y m d : Z) :
  1 <= m <= 12 -> 1 <= d <= daysInMonth y m ->
  dateOnly y m d = TimeClip (MakeDate (MakeDay y m d) 0).
Proof.
  intros Hm Hd. unfold dateOnly.
  replace (1 <=? m) with true by (symmetry; apply Z.leb_le; lia).
  replace (m <=? 12) with true by (symmetry; apply Z.leb_le; lia).
  replace (1 <=? d) with true by (symmetry; apply Z.leb_le; lia).
  replace (d <=? daysInMonth y m) with true by (symmetry; apply Z.leb_le; lia).
  reflexivity.
Qed.

Lemma daysInMonth_le (y m : Z) : 1 <= m <= 12 -> daysInMonth y m <= 31.
Proof.
  intros Hm. unfold daysInMonth. pose proof (InLeapYear_range y) as Hl.
  assert (m = 1 \/ m = 2 \/ m = 3 \/ m = 4 \/ m = 5 \/ m = 6 \/ m = 7 \/
          m = 8 \/ m = 9 \/ m = 10 \/ m = 11 \/ m = 12) as C by lia.
  repeat (destruct C as [-> | C]; [months; lia |]).
  subst m. months. lia.
Qed.

(** Reading the date part of [toISOString] gives the date back. *)
Lemma parseISODate_isoDate (c : Civil) :
  - 999999 <= cYear c <= 999999 ->
  1 <= cMonth c <= 12 ->
  1 <= cDate c <= daysInMonth (cYear c) (cMonth c) ->
  parseISODate (isoDate c EmptyString)
  = TimeClip (MakeDate (MakeDay (cYear c) (cMonth c) (cDate c)) 0).
Proof.
  destruct c as [y m d]; cbn [cYear cMonth cDate]. intros Hy Hm Hd.
  pose proof (daysInMonth_le y Hm) as H31.
  rewrite <- (dateOnly_valid y Hm Hd).
  assert (Em : 10 * (10 * 0 + m / 10 mod 10) + m mod 10 = m) by divmod.
  assert (Ed : 10 * (10 * 0 + d / 10 mod 10) + d mod 10 = d) by divmod.
  unfold isoDate, isoYear; cbn [cYear cMonth cDate].
  destruct (Z.leb_spec 0 y) as [H0 | H0];
    [destruct (Z.leb_spec y 9999) as [H9 | H9] |]; cbn [andb].
  - unfold pad4, pad3, pad2, parseISODate. cbn [list_ascii_of_string].
    change (dash "-"%char) with true. cbn [andb]. digits.
    rewrite Em, Ed. f_equal. divmod.
  - destruct (Z.ltb_spec y 0); [lia |].
    unfold pad6, pad4, pad3, pad2, parseISODate. cbn [list_ascii_of_string].
    change (dash "-"%char) with true. cbn [andb]. digits.
    rewrite Em, Ed. change (Ascii.eqb "+"%char "+"%char) with true.
    cbv iota. f_equal. divmod.
  - destruct (Z.ltb_spec y 0); [| lia].
    unfold pad6, pad4, pad3, pad2, parseISODate. cbn [list_ascii_of_string].
    change (dash "-"%char) with true. cbn [andb]. digits.
    rewrite Em, Ed. change (Ascii.eqb "-"%char "+"%char) with false.
    cbv iota.
    set (v := 10 * _ + _).
    assert (v = - y) as -> by (subst v; divmod).
    destruct (Z.eqb_spec (- y) 0); [lia |]. cbn [negb andb].
    now rewrite Z.opp_involutive.
Qed.

Lemma splitHead_cons (c : ascii) (s : string) :
  Ascii.eqb c "T"%char = false ->
  splitHead "T"%char (String c s) = String c (splitHead "T"%char s).
Proof. intros H. cbn [splitHead]. now rewrite H. Qed.

Local Ltac beforeT :=
  repeat (rewrite splitHead_cons
            by (reflexivity || (apply digitChar_not_T; apply digit_range))).

Lemma splitHead_isoDate (c : Civil) (rest : string) :
  splitHead "T"%char (isoDate c (String "T"%char rest))
  = isoDate c EmptyString.
Proof.
  unfold isoDate, isoYear.
  destruct ((0 <=? cYear c) && (cYear c <=? 9999));
    [| destruct (cYear c <? 0)];
    unfold pad6, pad4, pad3, pad2; beforeT; cbn [splitHead];
    now change (Ascii.eqb "T"%char "T"%char) with true.
Qed.

Lemma TimeClip_Some (t v : Z) : TimeClip t = Some v -> v = t /\ Z.abs t <= maxTimeValue.
Proof.
  unfold TimeClip. destruct (Z.leb_spec (Z.abs t) maxTimeValue); [| discriminate].
  intros [= <-]. auto.
Qed.

(** The day of a time value that is in range, and its midnight. *)
Lemma Day_range (t : Z) :
  Z.abs t <= maxTimeValue ->
  - 100000000 <= Day t <= 100000000 /\ Z.abs (Day t * msPerDay) <= maxTimeValue.
Proof.
  unfold Day, maxTimeValue, msPerDay. intros H. divmod.
Qed.


Lemma formatDate_Some (epoch : Z) (k : string) :
  formatDate epoch = Some k <->
  Z.abs (epoch * 1000) <= maxTimeValue /\ k = isoDay (Day (epoch * 1000)).
Proof.
  unfold formatDate, TimeClip, isoDay.
  destruct (Z.leb_spec (Z.abs (epoch * 1000)) maxTimeValue) as [H | H];
    cbn [toISOString option_map].
  - rewrite splitHead_isoDate. split.
    + intros [= <-]. auto.
    + intros [_ ->]. reflexivity.
  - split; [discriminate | lia].
Qed.

Lemma formatDate_None (epoch : Z) :
  formatDate epoch = None <-> maxTimeValue < Z.abs (epoch * 1000).
Proof.
  unfold formatDate, TimeClip.
  destruct (Z.leb_spec (Z.abs (epoch * 1000)) maxTimeValue) as [H | H];
    cbn [toISOString option_map]; split; (discriminate || lia || auto).
Qed.

Lemma parseISODate_isoDay (d : Z) :
  - 100000000 <= d <= 100000000 ->
  parseISODate (isoDay d) = Some (d * msPerDay).
Proof.
  intros Hd. unfold isoDay.
  destruct (civilFromDay_valid d) as (Hm & Hdt & Hmk).
  pose proof (civilFromDay_year_range Hd) as Hy.
  rewrite parseISODate_isoDate by (assumption || lia).
  rewrite Hmk. unfold MakeDate, TimeClip. rewrite Z.add_0_r.
  replace (Z.abs (d * msPerDay) <=? maxTimeValue) with true; [reflexivity |].
  symmetry. apply Z.leb_le. unfold msPerDay, maxTimeValue. lia.
Qed.

(** The key of a price entry reads back as the midnight that starts the UTC
    day of the entry. *)
Lemma getTime_formatDate (epoch : Z) (k : string) :
  formatDate epoch = Some k ->
  getTime k = Some (Day (epoch * 1000) * msPerDay).
Proof.
  intros H. apply formatDate_Some in H as [Hr ->].
  unfold getTime, Date_parse.
  now rewrite parseISODate_isoDay by (apply Day_range; exact Hr).
Qed.

(* ================================================================== *)
(** * Facts about sorting, sets and dictionaries *)
(* ================================================================== *)

Section SortFacts.

Variable A : Type.
Variable comparefn : A -> A -> option Z.

Lemma insertSorted_perm (x : A) (l : list A) :
  Permutation (insertSorted comparefn x l) (x :: l).
Proof.
  induction l as [| y l IH]; cbn [insertSorted]; [reflexivity |].
  destruct (0 <? SortCompare comparefn x y); [| reflexivity].
  rewrite IH. apply perm_swap.
Qed.

Lemma sort_perm (l : list A) : Permutation (sort comparefn l) l.
Proof.
  induction l as [| x l IH]; cbn [sort]; [reflexivity |].
  rewrite insertSorted_perm. now constructor.
Qed.

Lemma sort_In (x : A) (l : list A) : In x (sort comparefn l) <-> In x l.
Proof.
  split; apply Permutation_in; [| symmetry]; apply sort_perm.
Qed.

Lemma sort_NoDup (l : list A) : NoDup l -> NoDup (sort comparefn l).
Proof.
  apply Permutation_NoDup. symmetry. apply sort_perm.
Qed.

(** With a comparator that subtracts keys, the result is in the order of
    the keys. *)
Variable key : A -> Z.

Lemma insertSorted_sorted (x : A) (l : list A) :
  (forall y, In y l -> comparefn x y = Some (key x - key y)) ->
  StronglySorted (fun a b => key a <= key b) l ->
  StronglySorted (fun a b => key a <= key b) (insertSorted comparefn x l).
Proof.
  intros Hc Hs. induction Hs as [| y l Hs IH Hy]; cbn [insertSorted].
  - repeat constructor.
  - unfold SortCompare. rewrite (Hc y) by now left.
    destruct (Z.ltb_spec 0 (key x - key y)) as [Hlt | Hge].
    + constructor.
      * apply IH. intros z Hz. apply Hc. now right.
      * rewrite Forall_forall in *. intros z Hz.
        apply (Permutation_in _ (insertSorted_perm x l)) in Hz.
        destruct Hz as [<- | Hz]; [lia | auto].
    + constructor; [now constructor |].
      constructor; [lia |].
      rewrite Forall_forall in *. intros z Hz.
      specialize (Hy z Hz). cbn beta in Hy. lia.
Qed.

Lemma sort_sorted (l : list A) :
  (forall x y, In x l -> In y l -> comparefn x y = Some (key x - key y)) ->
  StronglySorted (fun a b => key a <= key b) (sort comparefn l).
Proof.
  induction l as [| x l IH]; intros Hc; cbn [sort]; [constructor |].
  apply insertSorted_sorted.
  - intros y Hy. apply Hc; [now left | right; exact (proj1 (sort_In y l) Hy)].
  - apply IH. intros a b Ha Hb. apply Hc; now right.
Qed.

(** The sort is stable: the elements of one key keep their order. *)
Lemma insertSorted_stable (k : Z) (x : A) (l : list A) :
  (forall y, In y l -> comparefn x y = Some (key x - key y)) ->
  filter (fun a => key a =? k) (insertSorted comparefn x l)
  = filter (fun a => key a =? k) (x :: l).
Proof.
  induction l as [| y l IH]; intros Hc; cbn [insertSorted]; [reflexivity |].
  unfold SortCompare. rewrite (Hc y) by now left.
  destruct (Z.ltb_spec 0 (key x - key y)) as [Hlt | Hge]; [| reflexivity].
  cbn [filter]. rewrite IH by (intros z Hz; apply Hc; now right).
  cbn [filter].
  destruct (Z.eqb_spec (key y) k), (Z.eqb_spec (key x) k); auto. lia.
Qed.

Lemma sort_stable (k : Z) (l : list A) :
  (forall x y, In x l -> In y l -> comparefn x y = Some (key x - key y)) ->
  filter (fun a => key a =? k) (sort comparefn l)
  = filter (fun a => key a =? k) l.
Proof.
  induction l as [| x l IH]; intros Hc; cbn [sort]; [reflexivity |].
  rewrite insertSorted_stable.
  - cbn [filter]. rewrite IH by (intros a b Ha Hb; apply Hc; now right).
    reflexivity.
  - intros y Hy. apply Hc; [now left | right; exact (proj1 (sort_In y l) Hy)].
Qed.

(** Two lists in the order of the keys that hold the same elements of each
    key, in the same order, are one list. *)
Lemma sorted_stable_unique (l1 l2 : list A) :
  StronglySorted (fun a b => key a <= key b) l1 ->
  StronglySorted (fun a b => key a <= key b) l2 ->
  (forall k, filter (fun a => key a =? k) l1 = filter (fun a => key a =? k) l2) ->
  l1 = l2.
Proof.
  intros H1. revert l2.
  induction H1 as [| x l1 Hs1 IH Hx]; intros l2 H2 Hf.
  - destruct l2 as [| y l2]; [reflexivity |].
    specialize (Hf (key y)). cbn [filter] in Hf.
    rewrite Z.eqb_refl in Hf. discriminate.
  - destruct H2 as [| y l2 Hs2 Hy].
    + specialize (Hf (key x)). cbn [filter] in Hf.
      rewrite Z.eqb_refl in Hf. discriminate.
    + rewrite Forall_forall in Hx, Hy.
      assert (Hnone : forall (a : A) (l : list A) (k : Z),
                 (forall b, In b l -> key a <= key b) -> k < key a ->
                 filter (fun b => key b =? k) (a :: l) = []).
      { intros a l k Hle Hlt. cbn [filter].
        destruct (Z.eqb_spec (key a) k); [lia |].
        induction l as [| b l IHl]; cbn [filter]; [reflexivity |].
        pose proof (Hle b (or_introl eq_refl)).
        destruct (Z.eqb_spec (key b) k); [lia |].
        apply IHl. intros c Hc. apply Hle. now right. }
      assert (Hk : key x = key y).
      { destruct (Z.lt_trichotomy (key x) (key y)) as [Hlt | [E | Hgt]]; [| exact E |].
        - pose proof (Hf (key x)) as Hfx.
          rewrite (Hnone y l2 (key x) Hy Hlt) in Hfx. cbn [filter] in Hfx.
          rewrite Z.eqb_refl in Hfx. discriminate.
        - pose proof (Hf (key y)) as Hfy.
          rewrite (Hnone x l1 (key y) Hx Hgt) in Hfy. cbn [filter] in Hfy.
          rewrite Z.eqb_refl in Hfy. discriminate. }
      pose proof (Hf (key x)) as Hfx. cbn [filter] in Hfx.
      rewrite <- Hk, Z.eqb_refl in Hfx. injection Hfx as -> Hfx.
      f_equal. apply IH; [exact Hs2 |].
      intros k. specialize (Hf k). cbn [filter] in Hf.
      destruct (Z.eqb_spec (key y) k); [injection Hf as Hf |]; exact Hf.
Qed.

(** So every stable sort by the keys returns what [sort] returns. *)
Lemma sort_is_the_stable_sort (l s : list A) :
  (forall x y, In x l -> In y l -> comparefn x y = Some (key x - key y)) ->
  StronglySorted (fun a b => key a <= key b) s ->
  (forall k, filter (fun a => key a =? k) s = filter (fun a => key a =? k) l) ->
  s = sort comparefn l.
Proof.
  intros Hc Hs Hf. apply sorted_stable_unique; [exact Hs | now apply sort_sorted |].
  intros k. now rewrite Hf, sort_stable.
Qed.

End SortFacts.

(** Sorting two lists whose elements compare alike moves them alike. *)
Lemma sort_Forall2 (A B : Type) (R : A -> B -> Prop)
    (cmpA : A -> A -> option Z) (cmpB : B -> B -> option Z) :
  (forall x x' y y', R x x' -> R y y' ->
     SortCompare cmpA x y = SortCompare cmpB x' y') ->
  forall l l', Forall2 R l l' -> Forall2 R (sort cmpA l) (sort cmpB l').
Proof.
  intros Hc l l' H. induction H as [| x x' l l' Hx Hl IH]; cbn [sort].
  - constructor.
  - clear Hl. induction IH as [| y y' s s' Hy Hs IHs]; cbn [insertSorted].
    + repeat constructor. exact Hx.
    + rewrite (Hc x x' y y' Hx Hy).
      destruct (0 <? SortCompare cmpB x' y'); repeat constructor; auto.
Qed.

Lemma existsb_eqb (x : string) (s : list string) :
  existsb (String.eqb x) s = true <-> In x s.
Proof.
  rewrite existsb_exists. split.
  - intros (y & Hy & E). apply String.eqb_eq in E. now subst.
  - intros H. exists x. split; [exact H | apply String.eqb_refl].
Qed.

Lemma setAdd_In (s : list string) (x y : string) :
  In y (setAdd s x) <-> In y s \/ y = x.
Proof.
  unfold setAdd. destruct (existsb (String.eqb x) s) eqn:E.
  - apply existsb_eqb in E. split; [auto | intros [H | ->]; auto].
  - rewrite in_app_iff. cbn. intuition.
Qed.

Lemma setAdd_NoDup (s : list string) (x : string) :
  NoDup s -> NoDup (setAdd s x).
Proof.
  intros H. unfold setAdd. destruct (existsb (String.eqb x) s) eqn:E; [exact H |].
  assert (~ In x s) as Hn.
  { intros Hin. apply existsb_eqb in Hin. congruence. }
  clear E. induction H as [| y s Hy Hs IH]; cbn.
  - constructor; [intros [] | constructor].
  - constructor.
    + rewrite in_app_iff. cbn. intros [H | [H | []]]; [auto |].
      apply Hn. now left.
    + apply IH. intros H. apply Hn. now right.
Qed.

Lemma fold_setAdd (l s : list string) :
  NoDup s ->
  NoDup (fold_left setAdd l s) /\
  forall y, In y (fold_left setAdd l s) <-> In y s \/ In y l.
Proof.
  revert s. induction l as [| x l IH]; intros s Hs; cbn [fold_left].
  - split; [exact Hs | cbn; intuition].
  - destruct (IH (setAdd s x) (setAdd_NoDup x Hs)) as [Hn Hi].
    split; [exact Hn |]. intros y. rewrite Hi, setAdd_In. cbn. intuition.
Qed.

Lemma newSet_NoDup (l : list string) : NoDup (newSet l).
Proof. apply fold_setAdd. constructor. Qed.

Lemma newSet_In (l : list string) (y : string) : In y (newSet l) <-> In y l.
Proof.
  unfold newSet. destruct (fold_setAdd l (@NoDup_nil string)) as [_ H].
  rewrite H. cbn. intuition.
Qed.

Section DictFacts.

Variable V : Type.

Lemma get_assign_eq (k : string) (v : V) (o : Dict V) :
  get k (assign k v o) = Some v.
Proof.
  induction o as [| [k' v'] o IH]; cbn [assign get].
  - now rewrite String.eqb_refl.
  - destruct (String.eqb k' k) eqn:E; cbn [get]; rewrite E; auto.
Qed.

Lemma get_assign_neq (k k' : string) (v : V) (o : Dict V) :
  k <> k' -> get k' (assign k v o) = get k' o.
Proof.
  intros Hn. induction o as [| [k0 v0] o IH]; cbn [assign get].
  - apply String.eqb_neq in Hn. now rewrite Hn.
  - destruct (String.eqb k0 k) eqn:E; cbn [get].
    + apply String.eqb_eq in E. subst k0.
      apply String.eqb_neq in Hn. now rewrite Hn.
    + destruct (String.eqb k0 k'); auto.
Qed.

Lemma keys_get (k : string) (o : Dict V) :
  In k (keys o) <-> get k o <> None.
Proof.
  induction o as [| [k' v'] o IH]; cbn [keys map get In fst].
  - intuition.
  - destruct (String.eqb k' k) eqn:E.
    + apply String.eqb_eq in E. split; [discriminate | auto].
    + apply String.eqb_neq in E. fold (keys o). rewrite <- IH. intuition.
Qed.

End DictFacts.

(** The dictionary of the prices holds, under each key, the close of the
    last entry with that key. *)
Lemma formatStockPrices_get (es : StockPriceData) :
  forall (o fp : Dict Z), formatStockPrices es o = Some fp ->
  forall (k : string) (c : Z),
    get k fp = Some c <->
    (exists before e after,
        es = before ++ e :: after /\ keyOf e = Some k /\ close (snd e) = c /\
        Forall (fun e' => keyOf e' <> Some k) after) \/
    (Forall (fun e' => keyOf e' <> Some k) es /\ get k o = Some c).
Proof.
  induction es as [| [epoch pd] es IH]; intros o fp H k c; cbn [formatStockPrices] in H.
  - injection H as <-. split.
    + intros Hg. right. split; [constructor | exact Hg].
    + intros [(before & e & after & E & _) | [_ Hg]]; [| exact Hg].
      now destruct before.
  - destruct (formatDate (timestamp pd)) as [dk |] eqn:Ek; [| discriminate].
    rewrite (IH _ _ H k c). clear IH H. split.
    + intros [(before & e & after & -> & Hk & Hc & Ha) | [Ha Hg]].
      * left. exists ((epoch, pd) :: before), e, after. auto.
      * destruct (string_dec dk k) as [-> | Hn].
        -- rewrite get_assign_eq in Hg. injection Hg as <-.
           left. exists [], (epoch, pd), es. auto.
        -- rewrite get_assign_neq in Hg by exact Hn.
           right. split; [| exact Hg]. constructor; [| exact Ha].
           unfold keyOf; cbn [snd]. rewrite Ek. congruence.
    + intros [(before & e & after & E & Hk & Hc & Ha) | [Ha Hg]].
      * destruct before as [| b before]; cbn [app] in E; injection E as <- ->.
        -- right. split; [exact Ha |].
           unfold keyOf in Hk; cbn [snd] in Hk. rewrite Ek in Hk.
           injection Hk as ->. cbn [snd] in Hc. subst c. apply get_assign_eq.
        -- left. exists before, e, after. auto.
      * inversion Ha as [| ? ? Hh Ht]; subst. right. split; [exact Ht |].
        unfold keyOf in Hh; cbn [snd] in Hh. rewrite Ek in Hh.
        rewrite get_assign_neq; [exact Hg | congruence].
Qed.

Lemma formatStockPrices_keys (es : StockPriceData) (fp : Dict Z) (k : string) :
  formatStockPrices es [] = Some fp ->
  In k (keys fp) -> exists e, In e es /\ keyOf e = Some k.
Proof.
  intros H Hk. apply keys_get in Hk.
  destruct (get k fp) as [c |] eqn:Hg; [| congruence].
  apply (@formatStockPrices_get es [] fp H) in Hg.
  destruct Hg as [(before & e & after & -> & He & _) | [_ Hg]]; [| discriminate].
  exists e. split; [| exact He]. apply in_elt.
Qed.

(** The prices are formatted exactly when every timestamp is a valid
    date. *)
Lemma formatStockPrices_total (es : StockPriceData) (o : Dict Z) :
  Forall (fun e => keyOf e <> None) es ->
  exists fp, formatStockPrices es o = Some fp.
Proof.
  intros H. revert o. induction H as [| [epoch pd] es He Hes IH]; intros o;
    cbn [formatStockPrices].
  - eauto.
  - unfold keyOf in He; cbn [snd] in He.
    destruct (formatDate (timestamp pd)); [apply IH | congruence].
Qed.

(* ================================================================== *)
(** * Facts about the walk over the days *)
(* ================================================================== *)

Lemma through_fresh (d : string) (visited rest : list string) :
  ~ In d visited -> through d (visited ++ rest) = visited ++ through d rest.
Proof.
  induction visited as [| x visited IH]; intros Hn; cbn [app through].
  - reflexivity.
  - destruct (String.eqb x d) eqn:E.
    + apply String.eqb_eq in E. subst x. exfalso. apply Hn. now left.
    + rewrite IH; [reflexivity |]. intros H. apply Hn. now right.
Qed.

Lemma through_here (d : string) (visited later : list string) :
  ~ In d visited -> through d (visited ++ d :: later) = visited ++ [d].
Proof.
  intros Hn. rewrite through_fresh by exact Hn. cbn [through].
  now rewrite String.eqb_refl.
Qed.

Lemma sharesHeld_snoc (txs : list Transaction) (visited : list string) (d : string) :
  sharesHeld txs (visited ++ [d])
  = fold_left applyTransaction (filter (dated d) txs) (sharesHeld txs visited).
Proof. unfold sharesHeld. now rewrite fold_left_app. Qed.

Lemma fold_applyTransaction (l : list Transaction) (held : Z) :
  fold_left applyTransaction l held = held + sumZ (map signedQuantity l).
Proof.
  revert held. induction l as [| t l IH]; intros held; cbn [fold_left map sumZ fold_right].
  - lia.
  - rewrite IH. unfold applyTransaction, signedQuantity, sumZ.
    destruct (action t); lia.
Qed.

(** The invariant of the walk: after the days [visited] the variable
    [currentShares] is [sharesHeld], and the points pushed are those of the
    days that emit. *)
Lemma walk_spec (txs : list Transaction) (fp : Dict Z) (days : list string) :
  NoDup days ->
  forall (rest visited : list string) (w : Walk),
    days = visited ++ rest ->
    currentShares w = sharesHeld txs visited ->
    portfolioValues (fold_left (visitDate txs fp) rest w)
    = portfolioValues w
      ++ map (pointOn txs fp days) (filter (emits txs fp days) rest).
Proof.
  intros Hnd rest. induction rest as [| d rest IH]; intros visited w Hd Hw;
    cbn [fold_left filter map].
  - now rewrite app_nil_r.
  - assert (Hfresh : ~ In d visited).
    { rewrite Hd in Hnd. apply NoDup_remove_2 in Hnd.
      intros Hin. apply Hnd, in_or_app. now left. }
    assert (Hheld : sharesHeld txs (through d days)
                    = fold_left applyTransaction (filter (dated d) txs) (currentShares w)).
    { rewrite Hd, through_here by exact Hfresh. now rewrite sharesHeld_snoc, Hw. }
    rewrite (IH (visited ++ [d]) (visitDate txs fp w d)).
    + assert (He : emits txs fp days d
                   = match get d fp with
                     | Some _ => 0 <? sharesHeld txs (through d days)
                     | None => false
                     end) by reflexivity.
      assert (Hp : forall c, get d fp = Some c ->
                   pointOn txs fp days d
                   = mkPoint d (sharesHeld txs (through d days) * c)).
      { intros c Hc. unfold pointOn. now rewrite Hc. }
      rewrite He. unfold visitDate. rewrite <- Hheld.
      destruct (get d fp) as [c |]; cbn [portfolioValues].
      * destruct (0 <? _); cbn [portfolioValues map].
        -- now rewrite <- app_assoc, (Hp c eq_refl).
        -- reflexivity.
      * reflexivity.
    + rewrite Hd, <- app_assoc. reflexivity.
    + rewrite sharesHeld_snoc, <- Hw. unfold visitDate.
      destruct (get d fp) as [c |]; [destruct (0 <? _) |]; reflexivity.
Qed.

Lemma sortedDatesOf_NoDup (sorted : list Transaction) (fp : Dict Z) :
  NoDup (sortedDatesOf sorted fp).
Proof. apply sort_NoDup, newSet_NoDup. Qed.

(** The days walked are the dates of the transactions and the keys of the
    prices. *)
Lemma sortedDatesOf_In (sorted : list Transaction) (fp : Dict Z) (d : string) :
  In d (sortedDatesOf sorted fp) <->
  (exists t, In t sorted /\ date t = d) \/ In d (keys fp).
Proof.
  unfold sortedDatesOf. rewrite sort_In, newSet_In, in_app_iff, in_map_iff.
  split; (intros [(t & H1 & H2) | H]; [left; exists t; auto | now right]).
Qed.

Lemma derive_spec (sorted : list Transaction) (prices : StockPriceData)
    (fp : Dict Z) :
  formatStockPrices prices [] = Some fp ->
  derive sorted prices
  = Some (map (pointOn sorted fp (sortedDatesOf sorted fp))
            (filter (emits sorted fp (sortedDatesOf sorted fp))
               (sortedDatesOf sorted fp))).
Proof.
  intros H. unfold derive. rewrite H. f_equal.
  now rewrite (walk_spec sorted fp (sortedDatesOf_NoDup sorted fp)
                 (sortedDatesOf sorted fp) [] (mkWalk 0 [])).
Qed.

Lemma pointOn_date (txs : list Transaction) (fp : Dict Z) (days : list string)
    (d : string) :
  pointDate (pointOn txs fp days d) = d.
Proof. unfold pointOn. now destruct (get d fp). Qed.

(** What the list of the emitted points contains. *)
Lemma emitted_In (txs : list Transaction) (fp : Dict Z) (days : list string)
    (p : PortfolioValueData) :
  In p (map (pointOn txs fp days) (filter (emits txs fp days) days)) <->
  exists c,
    In (pointDate p) days /\ get (pointDate p) fp = Some c /\
    0 < sharesHeld txs (through (pointDate p) days) /\
    value p = sharesHeld txs (through (pointDate p) days) * c.
Proof.
  rewrite in_map_iff. split.
  - intros (d & <- & Hd). apply filter_In in Hd as [Hin He].
    rewrite pointOn_date. unfold emits, pointOn in *.
    destruct (get d fp) as [c |]; [| discriminate].
    exists c. apply Z.ltb_lt in He. cbn [value]. auto.
  - intros (c & Hin & Hg & Hpos & Hv). exists (pointDate p). split.
    + unfold pointOn. rewrite Hg, <- Hv. now destruct p.
    + apply filter_In. split; [exact Hin |].
      unfold emits. rewrite Hg. now apply Z.ltb_lt.
Qed.

(** The count of shares is the sum of the signed quantities of the
    transactions dated on one of the days visited. *)
Lemma sumZ_filter_split (txs : list Transaction) (p q r : Transaction -> bool) :
  (forall t, p t = q t || r t) -> (forall t, q t && r t = false) ->
  sumZ (map signedQuantity (filter p txs))
  = sumZ (map signedQuantity (filter q txs))
    + sumZ (map signedQuantity (filter r txs)).
Proof.
  intros Hp Hqr. induction txs as [| t txs IH]; cbn [filter]; [reflexivity |].
  rewrite Hp. specialize (Hqr t).
  destruct (q t), (r t); cbn [orb andb] in *; try discriminate;
    cbn [map sumZ fold_right]; fold (sumZ (map signedQuantity (filter p txs)));
    unfold sumZ in *; cbn [map fold_right]; lia.
Qed.

Lemma sharesHeld_sum (txs : list Transaction) (visited : list string) :
  NoDup visited ->
  sharesHeld txs visited
  = sumZ (map signedQuantity
            (filter (fun t => existsb (String.eqb (date t)) visited) txs)).
Proof.
  induction visited as [| d visited IH] using rev_ind; intros Hnd.
  - cbn [existsb]. unfold sharesHeld; cbn [fold_left].
    induction txs as [| t txs IHt]; cbn [filter]; auto.
  - rewrite sharesHeld_snoc, fold_applyTransaction.
    assert (Hv : NoDup visited /\ ~ In d visited).
    { apply NoDup_remove in Hnd. rewrite app_nil_r in Hnd. exact Hnd. }
    destruct Hv as [Hv Hd]. rewrite (IH Hv). symmetry.
    apply sumZ_filter_split.
    + intros t. rewrite existsb_app. cbn [existsb]. unfold dated.
      now rewrite orb_false_r.
    + intros t. unfold dated.
      destruct (String.eqb (date t) d) eqn:E; [| apply andb_false_r].
      apply String.eqb_eq in E. rewrite andb_true_r.
      destruct (existsb (String.eqb (date t)) visited) eqn:Ex; [| reflexivity].
      apply existsb_eqb in Ex. congruence.
Qed.

Lemma sumZ_filter_perm (l l' : list Transaction) (p : Transaction -> bool) :
  Permutation l l' ->
  sumZ (map signedQuantity (filter p l)) = sumZ (map signedQuantity (filter p l')).
Proof.
  intros H. induction H as [| x l l' H IH | x y l | l l' l'' H1 IH1 H2 IH2];
    cbn [filter].
  - reflexivity.
  - destruct (p x); cbn [map sumZ fold_right]; unfold sumZ in *; lia.
  - destruct (p x), (p y); cbn [map sumZ fold_right]; lia.
  - congruence.
Qed.

Lemma through_incl (d y : string) (days : list string) :
  In y (through d days) -> In y days.
Proof.
  induction days as [| x days IH]; cbn [through]; [auto |].
  destruct (String.eqb x d); cbn [In]; intuition.
Qed.

Lemma through_NoDup (d : string) (days : list string) :
  NoDup days -> NoDup (through d days).
Proof.
  intros H. induction H as [| x days Hx Hd IH]; cbn [through]; [constructor |].
  destruct (String.eqb x d).
  - constructor; [intros [] | constructor].
  - constructor; [| exact IH]. intros Hin. apply Hx. eapply through_incl, Hin.
Qed.

Lemma sumZ_nonpos (l : list Transaction) :
  Forall (fun t => signedQuantity t <= 0) l -> sumZ (map signedQuantity l) <= 0.
Proof.
  induction 1 as [| t l Ht Hl IH]; cbn [map sumZ fold_right]; [lia |].
  unfold sumZ in IH. lia.
Qed.

Lemma sharesHeld_nonpos (txs : list Transaction) (visited : list string) :
  Forall (fun t => signedQuantity t <= 0) txs -> sharesHeld txs visited <= 0.
Proof.
  intros H. induction visited as [| d visited IH] using rev_ind.
  - unfold sharesHeld; cbn [fold_left]. lia.
  - rewrite sharesHeld_snoc, fold_applyTransaction.
    assert (sumZ (map signedQuantity (filter (dated d) txs)) <= 0); [| lia].
    apply sumZ_nonpos. rewrite Forall_forall in *.
    intros t Ht. apply filter_In in Ht as [Ht _]. auto.
Qed.

(** ** The order of the days *)

Lemma StronglySorted_filter (A : Type) (R : A -> A -> Prop) (f : A -> bool)
    (l : list A) :
  StronglySorted R l -> StronglySorted R (filter f l).
Proof.
  induction 1 as [| x l Hs IH Hx]; cbn [filter]; [constructor |].
  destruct (f x); [| exact IH]. constructor; [exact IH |].
  rewrite Forall_forall in *. intros y Hy. apply filter_In in Hy as [Hy _]. auto.
Qed.

Lemma StronglySorted_map (A B : Type) (R : B -> B -> Prop) (g : A -> B)
    (l : list A) :
  StronglySorted (fun a b => R (g a) (g b)) l -> StronglySorted R (map g l).
Proof.
  induction 1 as [| x l Hs IH Hx]; cbn [map]; constructor; [exact IH |].
  rewrite Forall_forall in *. intros y Hy.
  apply in_map_iff in Hy as (a & <- & Ha). auto.
Qed.

Lemma StronglySorted_refine (A : Type) (R R' : A -> A -> Prop) (l : list A) :
  StronglySorted R l -> NoDup l ->
  (forall a b, In a l -> In b l -> R a b -> a <> b -> R' a b) ->
  StronglySorted R' l.
Proof.
  induction 1 as [| x l Hs IH Hx]; intros Hnd Hr; [constructor |].
  inversion Hnd as [| ? ? Hnx Hnl]; subst. constructor.
  - apply IH; [exact Hnl |]. intros a b Ha Hb. apply Hr; now right.
  - rewrite Forall_forall in *. intros y Hy.
    apply Hr; [now left | now right | auto |]. intros ->. auto.
Qed.

Lemma StronglySorted_NoDup_map (A B : Type) (R : A -> A -> Prop) (g : A -> B)
    (l : list A) :
  (forall a b, R a b -> g a <> g b) ->
  StronglySorted R l -> NoDup (map g l).
Proof.
  intros Hr. induction 1 as [| x l Hs IH Hx]; cbn [map]; constructor; [| exact IH].
  rewrite Forall_forall in Hx. intros Hin.
  apply in_map_iff in Hin as (a & E & Ha). apply (Hr x a (Hx a Ha)). auto.
Qed.

(** For strings that are dates the comparator subtracts their times, so
    the days are walked in the order of their times. *)
Lemma sortedDatesOf_sorted (sorted : list Transaction) (fp : Dict Z) :
  (forall d, In d (map date sorted ++ keys fp) -> getTime d <> None) ->
  StronglySorted (fun a b => timeOr0 a <= timeOr0 b) (sortedDatesOf sorted fp).
Proof.
  intros Hp. unfold sortedDatesOf. apply sort_sorted.
  intros x y Hx Hy. apply (proj1 (newSet_In _ _)) in Hx, Hy.
  specialize (Hp x Hx) as Hpx. specialize (Hp y Hy) as Hpy.
  unfold compareDates, timeOr0.
  destruct (getTime x); [| congruence]. destruct (getTime y); [| congruence].
  reflexivity.
Qed.

Lemma key_is_day (prices : StockPriceData) (fp : Dict Z) (k : string) :
  formatStockPrices prices [] = Some fp -> In k (keys fp) ->
  exists D, k = isoDay D /\ getTime k = Some (D * msPerDay).
Proof.
  intros H Hk. destruct (@formatStockPrices_keys prices fp k H Hk) as (e & _ & He).
  unfold keyOf in He. exists (Day (timestamp (snd e) * 1000)). split.
  - now apply formatDate_Some in He.
  - now apply getTime_formatDate.
Qed.

(** ** Transactions that differ in their prices *)

Lemma filter_sameTrade (d : string) (l1 l2 : list Transaction) :
  Forall2 sameTrade l1 l2 ->
  Forall2 sameTrade (filter (dated d) l1) (filter (dated d) l2).
Proof.
  induction 1 as [| a b l1 l2 Hab Hl IH]; cbn [filter]; [constructor |].
  assert (E : dated d a = dated d b).
  { unfold dated. destruct Hab as (_ & Hd & _). now rewrite Hd. }
  rewrite E. destruct (dated d b); [constructor |]; auto.
Qed.

Lemma sum_sameTrade (l1 l2 : list Transaction) :
  Forall2 sameTrade l1 l2 ->
  sumZ (map signedQuantity l1) = sumZ (map signedQuantity l2).
Proof.
  induction 1 as [| a b l1 l2 (Ha & Hd & Hq) Hl IH]; cbn [map sumZ fold_right];
    [reflexivity |].
  unfold sumZ in IH. unfold signedQuantity at 1 3. rewrite Ha, Hq. lia.
Qed.

Lemma dates_sameTrade (l1 l2 : list Transaction) :
  Forall2 sameTrade l1 l2 -> map date l1 = map date l2.
Proof.
  induction 1 as [| a b l1 l2 (Ha & Hd & Hq) Hl IH]; cbn [map]; congruence.
Qed.

Lemma derive_sameTrade (s1 s2 : list Transaction) (prices : StockPriceData) :
  Forall2 sameTrade s1 s2 -> derive s1 prices = derive s2 prices.
Proof.
  intros H. unfold derive. destruct (formatStockPrices prices []) as [fp |]; [| reflexivity].
  unfold sortedDatesOf. rewrite (dates_sameTrade H).
  do 2 f_equal. generalize (mkWalk 0 []).
  induction (sort compareDates (newSet (map date s2 ++ keys fp))) as [| d l IH];
    intros w; cbn [fold_left]; [reflexivity |].
  rewrite IH. f_equal. unfold visitDate.
  now rewrite !fold_applyTransaction, (sum_sameTrade (filter_sameTrade d H)).
Qed.

(** ** The call on the heap *)

Lemma store_fresh (h t : Heap) (x v : Obj) :
  store (List.length h) v (h ++ x :: t) = h ++ v :: t.
Proof. induction h as [| y h IH]; cbn [List.length store app]; congruence. Qed.

Lemma nth_error_fresh (h : Heap) (x : Obj) :
  nth_error (h ++ [x]) (List.length h) = Some x.
Proof. induction h as [| y h IH]; cbn; auto. Qed.

Lemma nth_error_old (h t : Heap) (r : Ref) :
  (r < List.length h)%nat -> nth_error (h ++ t) r = nth_error h r.
Proof. intros H. now apply nth_error_app1. Qed.

Lemma readArray_bound (h : Heap) (r : Ref) (a : list Transaction) :
  readArray r h = Some a -> (r < List.length h)%nat.
Proof.
  unfold readArray. intros H. apply nth_error_Some.
  destruct (nth_error h r); [discriminate | discriminate].
Qed.

Lemma entries_bound (h : Heap) (r : Ref) (o : StockPriceData) :
  entries r h = Some o -> (r < List.length h)%nat.
Proof.
  unfold entries. intros H. apply nth_error_Some.
  destruct (nth_error h r); [discriminate | discriminate].
Qed.

(** The call allocates the sorted copy and nothing else; its result is that
    of the function on the contents of its arguments. *)
Lemma calculatePortfolioValueAt_spec (h : Heap) (transactions stockPrices : Ref)
    (txs : list Transaction) (prices : StockPriceData) :
  readArray transactions h = Some txs ->
  entries stockPrices h = Some prices ->
  calculatePortfolioValueAt transactions stockPrices h
  = Some (h ++ [TransactionArray (sort compareTransactions txs)],
          calculatePortfolioValue txs prices).
Proof.
  intros Ht Hp. unfold calculatePortfolioValueAt, spread. rewrite Ht.
  unfold sortInPlace.
  assert (E : readArray (List.length h) (h ++ [TransactionArray txs]) = Some txs).
  { unfold readArray. now rewrite nth_error_fresh. }
  rewrite E, store_fresh.
  unfold readArray at 1. rewrite nth_error_fresh.
  unfold entries in *. rewrite nth_error_old; [| now apply (@entries_bound h _ prices)].
  destruct (nth_error h stockPrices) as [[a | o] |]; try discriminate.
  now injection Hp as ->.
Qed.

Lemma calculatePortfolioValue_total (transactions : list Transaction)
    (prices : StockPriceData) :
  Forall (fun e => validTimestamp (timestamp (snd e))) prices ->
  exists out, calculatePortfolioValue transactions prices = Some out.
Proof.
  intros Hv.
  destruct (@formatStockPrices_total prices []) as [fp Hfp].
  { rewrite Forall_forall in *. intros e He. specialize (Hv e He).
    unfold keyOf. intros E. apply formatDate_None in E.
    unfold validTimestamp in Hv. lia. }
  unfold calculatePortfolioValue. rewrite (derive_spec _ _ Hfp). eauto.
Qed.

(* ================================================================== *)
(** * Facts about the call in an engine *)
(* ================================================================== *)

Lemma inherited_In (k : string) : inherited k = true <-> In k inheritedNames.
Proof. apply existsb_eqb. Qed.

Lemma member_own (k : string) (o : Dict Z) (c : Z) :
  member k o = OwnNumber c <-> get k o = Some c.
Proof.
  unfold member. destruct (get k o) as [v |].
  - split; intros [= ->]; reflexivity.
  - destruct (inherited k); split; discriminate.
Qed.

Lemma member_inherited (k : string) (o : Dict Z) :
  member k o = InheritedMember <-> get k o = None /\ inherited k = true.
Proof.
  unfold member. destruct (get k o) as [v |].
  - split; [discriminate | intros [H _]; discriminate].
  - destruct (inherited k); split; auto; try discriminate.
    intros [_ H]. discriminate.
Qed.

Lemma pushedOn_date (txs : list Transaction) (fp : Dict Z) (days : list string)
    (d : string) :
  pushedDate (pushedOn txs fp days d) = d.
Proof. unfold pushedOn. now destruct (member d fp). Qed.

(** The invariant of the walk of the engine. *)
Lemma walk_engine_spec (txs : list Transaction) (fp : Dict Z) (days : list string) :
  NoDup days ->
  forall (rest visited : list string) (w : EngineWalk),
    days = visited ++ rest ->
    shares w = sharesHeld txs visited ->
    pushed (fold_left (visitDate_engine txs fp) rest w)
    = pushed w
      ++ map (pushedOn txs fp days) (filter (emitsMember txs fp days) rest).
Proof.
  intros Hnd rest. induction rest as [| d rest IH]; intros visited w Hd Hw;
    cbn [fold_left filter map].
  - now rewrite app_nil_r.
  - assert (Hfresh : ~ In d visited).
    { rewrite Hd in Hnd. apply NoDup_remove_2 in Hnd.
      intros Hin. apply Hnd, in_or_app. now left. }
    assert (Hheld : sharesHeld txs (through d days)
                    = fold_left applyTransaction (filter (dated d) txs) (shares w)).
    { rewrite Hd, through_here by exact Hfresh. now rewrite sharesHeld_snoc, Hw. }
    rewrite (IH (visited ++ [d]) (visitDate_engine txs fp w d)).
    + assert (He : emitsMember txs fp days d
                   = match member d fp with
                     | UndefinedMember => false
                     | _ => 0 <? sharesHeld txs (through d days)
                     end) by reflexivity.
      assert (Hp : pushedOn txs fp days d
                   = match member d fp with
                     | OwnNumber c =>
                         NumberPoint (mkPoint d (sharesHeld txs (through d days) * c))
                     | _ => NaNPoint d
                     end) by reflexivity.
      rewrite He. unfold visitDate_engine. rewrite <- Hheld.
      destruct (member d fp) as [c | |]; cbn [pushed].
      * destruct (0 <? _); cbn [pushed map]; [| reflexivity].
        now rewrite <- app_assoc, Hp.
      * destruct (0 <? _); cbn [pushed map]; [| reflexivity].
        now rewrite <- app_assoc, Hp.
      * reflexivity.
    + rewrite Hd, <- app_assoc. reflexivity.
    + rewrite sharesHeld_snoc, <- Hw. unfold visitDate_engine.
      destruct (member d fp); try destruct (0 <? _); reflexivity.
Qed.

Lemma shares_walk_engine (txs : list Transaction) (fp : Dict Z)
    (days : list string) (w : EngineWalk) :
  shares (fold_left (visitDate_engine txs fp) days w)
  = fold_left
      (fun held day => fold_left applyTransaction (filter (dated day) txs) held)
      days (shares w).
Proof.
  revert w. induction days as [| d days IH]; intros w; cbn [fold_left]; [reflexivity |].
  rewrite IH. f_equal. unfold visitDate_engine.
  destruct (member d fp); try destruct (0 <? _); reflexivity.
Qed.

Lemma engineSort_perm (A : Type) (comparefn : A -> A -> option Z) (l : list A) :
  conforming -> Permutation (engineSort comparefn l) l.
Proof. intros (H & _). apply H. Qed.

Lemma engineSort_In (A : Type) (comparefn : A -> A -> option Z) (l : list A) (x : A) :
  conforming -> (In x (engineSort comparefn l) <-> In x l).
Proof.
  intros H. split; apply Permutation_in; [| symmetry]; now apply engineSort_perm.
Qed.

(** For a comparator that subtracts keys the engine returns what [sort]
    returns. *)
Lemma engineSort_is_sort (A : Type) (comparefn : A -> A -> option Z)
    (key : A -> Z) (l : list A) :
  conforming ->
  (forall x y, In x l -> In y l -> comparefn x y = Some (key x - key y)) ->
  engineSort comparefn l = sort comparefn l.
Proof.
  intros (_ & H & _) Hc. destruct (H A comparefn key l Hc) as [Hs Hf].
  now apply sort_is_the_stable_sort with (key := key).
Qed.

Lemma sortedDates_engine_NoDup (sorted : list Transaction) (fp : Dict Z) :
  conforming -> NoDup (sortedDates_engine sorted fp).
Proof.
  intros H. unfold sortedDates_engine.
  eapply Permutation_NoDup; [symmetry; now apply engineSort_perm |].
  apply newSet_NoDup.
Qed.

Lemma sortedDates_engine_In (transactions : list Transaction) (fp : Dict Z)
    (d : string) :
  conforming ->
  (In d (sortedDates_engine (engineSort compareTransactions transactions) fp) <->
   (exists t, In t transactions /\ date t = d) \/ In d (keys fp)).
Proof.
  intros H. unfold sortedDates_engine.
  rewrite (engineSort_In _ _ _ H), newSet_In, in_app_iff, in_map_iff.
  split; (intros [(t & H1 & H2) | Hk]; [left; exists t | now right]).
  - split; [now apply (engineSort_In compareTransactions transactions t H) | exact H1].
  - split; [exact H2 | now apply (engineSort_In compareTransactions transactions t H)].
Qed.

Lemma calculatePortfolioValue_engine_spec (transactions : list Transaction)
    (prices : StockPriceData) (fp : Dict Z) :
  conforming ->
  formatStockPrices prices [] = Some fp ->
  calculatePortfolioValue_engine transactions prices
  = Some (map (pushedOn (engineSort compareTransactions transactions) fp
                 (sortedDates_engine (engineSort compareTransactions transactions) fp))
            (filter (emitsMember (engineSort compareTransactions transactions) fp
                       (sortedDates_engine (engineSort compareTransactions transactions) fp))
               (sortedDates_engine (engineSort compareTransactions transactions) fp))).
Proof.
  intros Hc H. unfold calculatePortfolioValue_engine. rewrite H. f_equal.
  now rewrite (@walk_engine_spec (engineSort compareTransactions transactions) fp
                 (sortedDates_engine (engineSort compareTransactions transactions) fp)
                 (sortedDates_engine_NoDup _ fp Hc)
                 (sortedDates_engine (engineSort compareTransactions transactions) fp)
                 [] (mkEngineWalk 0 [])).
Qed.

(** What the engine pushes. *)
Lemma pushed_In (txs : list Transaction) (fp : Dict Z) (days : list string)
    (q : Pushed) :
  In q (map (pushedOn txs fp days) (filter (emitsMember txs fp days) days)) <->
  In (pushedDate q) days /\
  0 < sharesHeld txs (through (pushedDate q) days) /\
  ((exists c, get (pushedDate q) fp = Some c /\
              q = NumberPoint
                    (mkPoint (pushedDate q)
                       (sharesHeld txs (through (pushedDate q) days) * c))) \/
   (get (pushedDate q) fp = None /\ inherited (pushedDate q) = true /\
    q = NaNPoint (pushedDate q))).
Proof.
  rewrite in_map_iff. split.
  - intros (d & <- & Hd). apply filter_In in Hd as [Hin He].
    rewrite pushedOn_date. unfold emitsMember, pushedOn in *.
    destruct (member d fp) as [c | |] eqn:M; [| | discriminate];
      apply Z.ltb_lt in He; repeat split; auto.
    + left. exists c. split; [now apply member_own | reflexivity].
    + right. apply member_inherited in M as [Hg Hi]. auto.
  - intros (Hin & Hpos & [(c & Hg & E) | (Hg & Hi & E)]);
      exists (pushedDate q); (split; [| apply filter_In; split; [exact Hin |]]).
    + unfold pushedOn. rewrite (proj2 (member_own _ _ _) Hg). now symmetry.
    + unfold emitsMember. rewrite (proj2 (member_own _ _ _) Hg). now apply Z.ltb_lt.
    + unfold pushedOn. rewrite (proj2 (member_inherited _ _) (conj Hg Hi)). now symmetry.
    + unfold emitsMember. rewrite (proj2 (member_inherited _ _) (conj Hg Hi)).
      now apply Z.ltb_lt.
Qed.

(** Without inherited names among the days, the engine pushes the points
    with a price and nothing else. *)
Lemma pushed_without_inherited (txs : list Transaction) (fp : Dict Z)
    (days : list string) :
  (forall d, In d days -> get d fp = None -> inherited d = false) ->
  map (pushedOn txs fp days) (filter (emitsMember txs fp days) days)
  = map NumberPoint
      (map (pointOn txs fp days) (filter (emits txs fp days) days)).
Proof.
  intros Hn.
  assert (Hf : filter (emitsMember txs fp days) days = filter (emits txs fp days) days).
  { apply filter_ext_in. intros d Hd. unfold emitsMember, emits, member.
    destruct (get d fp) eqn:G; [reflexivity |]. now rewrite (Hn d Hd G). }
  rewrite Hf, map_map. apply map_ext_in. intros d Hd.
  apply filter_In in Hd as [Hd He]. unfold emits in He.
  unfold pushedOn, pointOn, member. destruct (get d fp); [reflexivity | discriminate].
Qed.

(** When every transaction date is a date, the points of the model are in
    the strict order of their days and on keys of the prices. *)
Lemma model_points_ascending (transactions : list Transaction)
    (prices : StockPriceData) (out : list PortfolioValueData) :
  Forall (fun t => getTime (date t) <> None) transactions ->
  calculatePortfolioValue transactions prices = Some out ->
  ascendingByDate out /\
  NoDup (map (fun p => dayOf (pointDate p)) out) /\
  exists fp,
    formatStockPrices prices [] = Some fp /\
    forall p, In p out -> In (pointDate p) (keys fp).
Proof.
  intros Hdates Hout.
  destruct (formatStockPrices prices []) as [fp |] eqn:H;
    [| unfold calculatePortfolioValue, derive in Hout; now rewrite H in Hout].
  unfold calculatePortfolioValue in Hout. rewrite (derive_spec _ _ H) in Hout.
  injection Hout as <-.
  set (sorted := sort compareTransactions transactions).
  set (days := sortedDatesOf sorted fp).
  set (strictly := fun a b : string =>
         exists Da Db, getTime a = Some (Da * msPerDay) /\
                       getTime b = Some (Db * msPerDay) /\ Da < Db).
  assert (Hparse : forall d, In d (map date sorted ++ keys fp) -> getTime d <> None).
  { intros d Hd. apply in_app_iff in Hd as [Hd | Hd].
    - apply in_map_iff in Hd as (t & <- & Ht). apply sort_In in Ht.
      rewrite Forall_forall in Hdates. auto.
    - destruct (@key_is_day prices fp d H Hd) as (D & _ & E). congruence. }
  assert (Hstrict : StronglySorted strictly (filter (emits sorted fp days) days)).
  { apply StronglySorted_refine with (R := fun a b => timeOr0 a <= timeOr0 b).
    - apply StronglySorted_filter, sortedDatesOf_sorted, Hparse.
    - apply NoDup_filter, sortedDatesOf_NoDup.
    - intros a b Ha Hb Hle Hne.
      assert (Hk : forall x, In x (filter (emits sorted fp days) days) ->
                             In x (keys fp)).
      { intros x Hx. apply filter_In in Hx as [_ Hx]. unfold emits in Hx.
        apply keys_get. destruct (get x fp); [discriminate | discriminate]. }
      destruct (@key_is_day prices fp a H (Hk a Ha)) as (Da & Ea & Ta).
      destruct (@key_is_day prices fp b H (Hk b Hb)) as (Db & Eb & Tb).
      exists Da, Db. repeat split; auto.
      unfold timeOr0 in Hle. rewrite Ta, Tb in Hle.
      assert (Da <> Db) by congruence. unfold msPerDay in Hle. lia. }
  split; [| split].
  - apply StronglySorted_map.
    eapply StronglySorted_refine with (R := strictly).
    + exact Hstrict.
    + apply NoDup_filter, sortedDatesOf_NoDup.
    + intros a b _ _ (Da & Db & Ta & Tb & Hlt) _.
      rewrite !pointOn_date. unfold earlier. rewrite Ta, Tb.
      unfold msPerDay. lia.
  - rewrite map_map.
    apply StronglySorted_NoDup_map with (R := strictly); [| exact Hstrict].
    intros a b (Da & Db & Ta & Tb & Hlt). rewrite !pointOn_date.
    unfold dayOf, Day. rewrite Ta, Tb. cbn [option_map].
    rewrite !Z.div_mul by (unfold msPerDay; lia). intros [= E]. lia.
  - exists fp. split; [reflexivity |].
    intros p Hp. apply emitted_In in Hp as (c & _ & Hg & _).
    apply keys_get. congruence.
Qed.

Lemma inherited_no_date (k : string) :
  conforming -> inherited k = true -> getTime k = None.
Proof.
  intros (_ & _ & H) Hi. apply inherited_In in Hi.
  rewrite Forall_forall in H. auto.
Qed.

(** ** The engine on dates that can be read *)

Lemma compareDates_consistent (l : list string) :
  (forall d, In d l -> getTime d <> None) ->
  forall x y, In x l -> In y l ->
    compareDates x y = Some (timeOr0 x - timeOr0 y).
Proof.
  intros Hp x y Hx Hy. specialize (Hp x Hx) as Px. specialize (Hp y Hy) as Py.
  unfold compareDates, timeOr0.
  destruct (getTime x); [| congruence]. destruct (getTime y); [| congruence].
  reflexivity.
Qed.

Lemma compareTransactions_consistent (transactions : list Transaction) :
  Forall (fun t => getTime (date t) <> None) transactions ->
  forall x y, In x transactions -> In y transactions ->
    compareTransactions x y = Some (timeOr0 (date x) - timeOr0 (date y)).
Proof.
  intros Hd x y Hx Hy. rewrite Forall_forall in Hd.
  specialize (Hd x Hx) as Dx. specialize (Hd y Hy) as Dy.
  unfold compareTransactions, compareDates, timeOr0.
  destruct (getTime (date x)); [| congruence].
  destruct (getTime (date y)); [| congruence]. reflexivity.
Qed.

Lemma engine_transactions_of_model (transactions : list Transaction) :
  conforming ->
  Forall (fun t => getTime (date t) <> None) transactions ->
  engineSort compareTransactions transactions
  = sort compareTransactions transactions.
Proof.
  intros Hc Hd.
  apply engineSort_is_sort with (key := fun t => timeOr0 (date t)); [exact Hc |].
  now apply compareTransactions_consistent.
Qed.

Lemma dates_parse (transactions : list Transaction) (prices : StockPriceData)
    (fp : Dict Z) :
  Forall (fun t => getTime (date t) <> None) transactions ->
  formatStockPrices prices [] = Some fp ->
  forall d, In d (map date (sort compareTransactions transactions) ++ keys fp) ->
            getTime d <> None.
Proof.
  intros Hd H d Hin. apply in_app_iff in Hin as [Hin | Hin].
  - apply in_map_iff in Hin as (t & <- & Ht). apply sort_In in Ht.
    rewrite Forall_forall in Hd. auto.
  - destruct (@key_is_day prices fp d H Hin) as (D & _ & E). congruence.
Qed.

Lemma engine_days_of_model (transactions : list Transaction)
    (prices : StockPriceData) (fp : Dict Z) :
  conforming ->
  Forall (fun t => getTime (date t) <> None) transactions ->
  formatStockPrices prices [] = Some fp ->
  sortedDates_engine (sort compareTransactions transactions) fp
  = sortedDatesOf (sort compareTransactions transactions) fp.
Proof.
  intros Hc Hd H. unfold sortedDates_engine, sortedDatesOf.
  apply engineSort_is_sort with (key := timeOr0); [exact Hc |].
  apply compareDates_consistent. intros d Hin.
  apply (@dates_parse transactions prices fp Hd H).
  exact (proj1 (newSet_In _ _) Hin).
Qed.

(** When every transaction date is a date, the engine returns the points
    of the model. *)
Lemma engine_of_model (transactions : list Transaction) (prices : StockPriceData) :
  conforming ->
  Forall (fun t => getTime (date t) <> None) transactions ->
  calculatePortfolioValue_engine transactions prices
  = option_map (map NumberPoint) (calculatePortfolioValue transactions prices).
Proof.
  intros Hc Hd.
  destruct (formatStockPrices prices []) as [fp |] eqn:H.
  - rewrite (@calculatePortfolioValue_engine_spec transactions prices fp Hc H).
    unfold calculatePortfolioValue. rewrite (derive_spec _ _ H). cbn [option_map].
    rewrite (engine_transactions_of_model Hc Hd).
    rewrite (@engine_days_of_model transactions prices fp Hc Hd H).
    f_equal. apply pushed_without_inherited.
    intros d Hin Hg. destruct (inherited d) eqn:Hi; [| reflexivity].
    exfalso. apply (@dates_parse transactions prices fp Hd H d).
    + apply sortedDatesOf_In in Hin as [(t & Ht & <-) | Hk].
      * apply in_or_app. left. now apply in_map.
      * apply in_or_app. now right.
    + now apply inherited_no_date.
  - unfold calculatePortfolioValue_engine, calculatePortfolioValue, derive.
    now rewrite H.
Qed.

(** ** The transactions of the days visited *)

Lemma fold_days_applied (txs : list Transaction) (visited : list string) (held : Z) :
  fold_left
    (fun held day => fold_left applyTransaction (filter (dated day) txs) held)
    visited held
  = fold_left applyTransaction (appliedThrough txs visited) held.
Proof.
  revert held. unfold appliedThrough.
  induction visited as [| d visited IH]; intros held; cbn [fold_left flat_map];
    [reflexivity |].
  now rewrite fold_left_app, IH.
Qed.





(** ** Calendar days that occur once *)

Lemma calendarDays_pushedOn (txs : list Transaction) (fp : Dict Z)
    (days l : list string) :
  calendarDays (map (pushedOn txs fp days) l)
  = flat_map (fun d => match dayOf d with
                       | Some D => [D]
                       | None => []
                       end) l.
Proof.
  unfold calendarDays. induction l as [| d l IH]; cbn [map flat_map]; [reflexivity |].
  now rewrite pushedOn_date, IH.
Qed.

Lemma dayOf_isoDay (d : string) (D : Z) :
  getTime d = Some (D * msPerDay) -> dayOf d = Some D.
Proof.
  intros H. unfold dayOf, Day. rewrite H. cbn [option_map].
  now rewrite Z.div_mul by (unfold msPerDay; lia).
Qed.

Lemma days_once (l : list string) :
  NoDup l ->
  (forall d, In d l ->
     (exists D, d = isoDay D /\ getTime d = Some (D * msPerDay)) \/
     getTime d = None) ->
  NoDup (flat_map (fun d => match dayOf d with
                            | Some D => [D]
                            | None => []
                            end) l).
Proof.
  induction 1 as [| d l Hd Hl IH]; intros Hk; cbn [flat_map]; [constructor |].
  assert (IHl : NoDup (flat_map (fun d => match dayOf d with
                                          | Some D => [D]
                                          | None => []
                                          end) l))
    by (apply IH; intros x Hx; apply Hk; now right).
  destruct (Hk d (or_introl eq_refl)) as [(D & E & T) | T].
  - rewrite (@dayOf_isoDay d D T). cbn [app]. constructor; [| exact IHl].
    intros Hin. apply in_flat_map in Hin as (x & Hx & HD).
    destruct (Hk x (or_intror Hx)) as [(D' & E' & T') | T'].
    + rewrite (@dayOf_isoDay x D' T') in HD. destruct HD as [<- | []].
      apply Hd. now rewrite E, <- E'.
    + unfold dayOf in HD. rewrite T' in HD. destruct HD.
  - unfold dayOf. rewrite T. exact IHl.
Qed.

(** ** The place of a string in the walk *)







(* ================================================================== *)
(** * The properties of the specification *)
(* ================================================================== *)


(** C2, as the code has it: in the result of a call that returns no two
    points have one date and no two points are of one calendar day.  The
    date of a point is a key of the day-keyed prices, or else it names a
    member of [Object.prototype], is the date of a transaction and its
    point has the value [NaN].  When the date of every transaction is a
    string that [Date] can read, every point has a number as its value and
    the points are in the strictly ascending order of their calendar
    dates. *)
Theorem C2_one_point_per_day (transactions : list Transaction)
    (prices : StockPriceData) (out : list Pushed) :
  conforming ->
  calculatePortfolioValue_engine transactions prices = Some out ->
  NoDup (map pushedDate out) /\
  NoDup (calendarDays out) /\
  (exists fp,
      formatStockPrices prices [] = Some fp /\
      forall q, In q out ->
        (exists p, q = NumberPoint p /\ In (pointDate p) (keys fp)) \/
        (q = NaNPoint (pushedDate q) /\ inherited (pushedDate q) = true /\
         ~ In (pushedDate q) (keys fp) /\
         exists t, In t transactions /\ date t = pushedDate q)) /\
  (Forall (fun t => getTime (date t) <> None) transactions ->
   ascendingPushed out /\ forall q, In q out -> exists p, q = NumberPoint p).
Proof.
  intros Hc Hout.
  destruct (formatStockPrices prices []) as [fp |] eqn:H;
    [| unfold calculatePortfolioValue_engine in Hout; now rewrite H in Hout].
  pose proof Hout as Hout'.
  rewrite (@calculatePortfolioValue_engine_spec transactions prices fp Hc H) in Hout.
  injection Hout as <-.
  set (sorted := engineSort compareTransactions transactions) in *.
  set (days := sortedDates_engine sorted fp) in *.
  assert (Hnd : NoDup (filter (emitsMember sorted fp days) days))
    by apply NoDup_filter, sortedDates_engine_NoDup, Hc.
  split; [| split; [| split]].
  - rewrite map_map. erewrite map_ext; [rewrite map_id; exact Hnd |].
    intros d. apply pushedOn_date.
  - rewrite calendarDays_pushedOn. apply days_once; [exact Hnd |].
    intros d Hd. apply filter_In in Hd as [_ He]. unfold emitsMember in He.
    destruct (member d fp) as [c | |] eqn:M; [| | discriminate].
    + left. apply member_own in M. apply (@key_is_day prices fp d H).
      apply keys_get. congruence.
    + right. apply member_inherited in M as [_ Hi]. now apply inherited_no_date.
  - exists fp. split; [reflexivity |]. intros q Hq.
    apply pushed_In in Hq as (Hin & _ & [(c & Hg & ->) | (Hg & Hi & E)]).
    + left. eexists. split; [reflexivity |]. cbn [pointDate pushedDate].
      apply keys_get. cbn [pushedDate pointDate] in Hg. congruence.
    + right. split; [exact E |]. split; [exact Hi |].
      assert (Hk : ~ In (pushedDate q) (keys fp)).
      { intros Hk. apply keys_get in Hk. congruence. }
      split; [exact Hk |].
      apply (@sortedDates_engine_In transactions fp (pushedDate q) Hc) in Hin.
      destruct Hin as [Ht | Hk']; [exact Ht | contradiction].
  - intros Hd. rewrite (engine_of_model prices Hc Hd) in Hout'.
    destruct (calculatePortfolioValue transactions prices) as [points |] eqn:E;
      [| discriminate].
    cbn [option_map] in Hout'. injection Hout' as Hout'.
    fold sorted in Hout'. fold days in Hout'. rewrite <- Hout'. split.
    + apply StronglySorted_map.
      exact (proj1 (@model_points_ascending transactions prices points Hd E)).
    + intros q Hq. apply in_map_iff in Hq as (p & <- & _). now exists p.
Qed.


(** C4: the key of a price entry is the ISO date of the UTC day that holds
    the instant [timestamp * 1000] ms, and it reads back as the midnight
    that starts that day; a timestamp outside the range of [Date] has no
    key.  Under each key the dictionary holds the close of the last entry,
    in the order of iteration, that has this key: of two entries of one day
    the second gives the price. *)
Theorem C4_day_keys_last_write_wins (prices : StockPriceData) (fp : Dict Z) :
  formatStockPrices prices [] = Some fp ->
  (forall epoch,
      (validTimestamp epoch ->
         formatDate epoch = Some (isoDay (Day (epoch * 1000))) /\
         getTime (isoDay (Day (epoch * 1000)))
         = Some (Day (epoch * 1000) * msPerDay)) /\
      (~ validTimestamp epoch -> formatDate epoch = None)) /\
  (forall epoch1 epoch2,
      validTimestamp epoch1 -> validTimestamp epoch2 ->
      (formatDate epoch1 = formatDate epoch2 <->
       Day (epoch1 * 1000) = Day (epoch2 * 1000))) /\
  (forall k c,
      get k fp = Some c <->
      exists before e after,
        prices = before ++ e :: after /\ keyOf e = Some k /\
        close (snd e) = c /\ Forall (fun e' => keyOf e' <> Some k) after) /\
  (forall e1 e2 k,
      keyOf e1 = Some k -> keyOf e2 = Some k ->
      formatStockPrices [e1; e2] [] = Some [(k, close (snd e2))]).
Proof.
  intros H. split; [| split; [| split]].
  - intros epoch. split.
    + intros Hv.
      assert (E : formatDate epoch = Some (isoDay (Day (epoch * 1000))))
        by (apply formatDate_Some; auto).
      split; [exact E | exact (getTime_formatDate _ E)].
    + intros Hv. apply formatDate_None. unfold validTimestamp in Hv. lia.
  - intros epoch1 epoch2 V1 V2.
    assert (E1 : formatDate epoch1 = Some (isoDay (Day (epoch1 * 1000))))
      by (apply formatDate_Some; auto).
    assert (E2 : formatDate epoch2 = Some (isoDay (Day (epoch2 * 1000))))
      by (apply formatDate_Some; auto).
    split.
    + intros E. pose proof (getTime_formatDate _ E1) as T1.
      pose proof (getTime_formatDate _ E2) as T2.
      rewrite E1, E2 in E. injection E as E. rewrite E, T2 in T1.
      injection T1 as T1. unfold msPerDay in T1. lia.
    + intros E. now rewrite E1, E2, E.
  - intros k c. rewrite (@formatStockPrices_get prices [] fp H k c).
    split; [intros [Hl | [_ Hg]]; [exact Hl | discriminate] | auto].
  - intros [epoch1 pd1] [epoch2 pd2] k H1 H2.
    unfold keyOf in H1, H2; cbn [snd] in *. cbn [formatStockPrices].
    rewrite H1, H2. cbn [assign]. now rewrite String.eqb_refl.
Qed.

(** C5: the call changes neither of its arguments.  It sorts a copy of the
    array of transactions, so that after the call every object that was on
    the heap, the array with its elements in their order and the prices
    among them, is what it was, whether the call returns or throws. *)
Theorem C5_arguments_unchanged (h : Heap) (transactions stockPrices : Ref)
    (txs : list Transaction) (prices : StockPriceData) :
  readArray transactions h = Some txs ->
  entries stockPrices h = Some prices ->
  exists h' result,
    calculatePortfolioValueAt transactions stockPrices h = Some (h', result) /\
    result = calculatePortfolioValue txs prices /\
    readArray transactions h' = Some txs /\
    entries stockPrices h' = Some prices /\
    forall r, (r < List.length h)%nat -> nth_error h' r = nth_error h r.
Proof.
  intros Ht Hp. eexists _, _. split; [apply calculatePortfolioValueAt_spec; eauto |].
  split; [reflexivity |].
  pose proof (readArray_bound _ _ Ht) as Bt.
  pose proof (entries_bound _ _ Hp) as Bp.
  unfold readArray, entries in *. rewrite !nth_error_old by assumption.
  repeat split; auto. intros r Hr. now apply nth_error_old.
Qed.

(** C6: the result of a call is a function of the transactions and of the
    entries of the prices in their order of iteration.  Two calls on equal
    arguments give one result, wherever the arguments are on the heap and
    whatever else the heap holds, and so does a second call after the
    first. *)
Theorem C6_deterministic (h1 h2 : Heap) (tr1 pr1 tr2 pr2 : Ref)
    (txs : list Transaction) (prices : StockPriceData) :
  readArray tr1 h1 = Some txs -> entries pr1 h1 = Some prices ->
  readArray tr2 h2 = Some txs -> entries pr2 h2 = Some prices ->
  exists result h1' h2' h1'',
    calculatePortfolioValueAt tr1 pr1 h1 = Some (h1', result) /\
    calculatePortfolioValueAt tr2 pr2 h2 = Some (h2', result) /\
    calculatePortfolioValueAt tr1 pr1 h1' = Some (h1'', result).
Proof.
  intros Ht1 Hp1 Ht2 Hp2.
  exists (calculatePortfolioValue txs prices). eexists _, _, _.
  split; [apply calculatePortfolioValueAt_spec; eauto |].
  split; [apply calculatePortfolioValueAt_spec; eauto |].
  apply calculatePortfolioValueAt_spec.
  - unfold readArray in *. rewrite nth_error_old; [exact Ht1 |].
    apply nth_error_Some. destruct (nth_error h1 tr1); [discriminate | discriminate].
  - unfold entries in *. rewrite nth_error_old; [exact Hp1 |].
    apply nth_error_Some. destruct (nth_error h1 pr1); [discriminate | discriminate].
Qed.

(** C7: the fields [price] and [positionAveragePrice] of a transaction are
    not used: two lists of transactions that agree in the action, the date
    and the quantity of each element give the same result. *)
Theorem C7_price_not_used (txs1 txs2 : list Transaction)
    (prices : StockPriceData) :
  Forall2 sameTrade txs1 txs2 ->
  calculatePortfolioValue txs1 prices = calculatePortfolioValue txs2 prices.
Proof.
  intros H. unfold calculatePortfolioValue. apply derive_sameTrade.
  apply sort_Forall2; [| exact H].
  intros x x' y y' (_ & Hx & _) (_ & Hy & _).
  unfold SortCompare, compareTransactions. now rewrite Hx, Hy.
Qed.

(** C8, as the code has it: a request that fails, by a rejection, a
    response that is not OK or a body that does not parse, is caught and
    logged; it leaves the prices unset and the series empty, and the
    derivation is not called.  The derivation is called only after a
    request that succeeded, once, with the data of the response; when
    every timestamp of the data is a valid date it returns the series that
    is then shown. *)
Theorem C8_failed_fetch_leaves_series_empty (outcome : FetchOutcome) :
  let c := PortfolioValueChart outcome in
  ((forall status data, outcome <> Responded true status (Some data)) ->
     stockPrices c = None /\ portfolioData c = [] /\ derivations c = [] /\
     uncaught c = false /\
     console c = [match outcome with
                  | Rejected => NetworkError
                  | Responded false status _ => HttpError status
                  | Responded true _ _ => ParseError
                  end]) /\
  (derivations c <> [] ->
     exists status data, outcome = Responded true status (Some data)) /\
  (forall status data,
      outcome = Responded true status (Some data) ->
      console c = [] /\ stockPrices c = Some data /\ derivations c = [data] /\
      (Forall (fun e => validTimestamp (timestamp (snd e))) data ->
         uncaught c = false /\
         calculatePortfolioValue GOOGL data = Some (portfolioData c))).
Proof.
  destruct outcome as [| [|] status [data |]]; cbn zeta.
  - split; [| split]; [intros _; cbn; auto | cbn; congruence | discriminate].
  - split; [intros H; now contradiction (H status data) |].
    split; [eauto |]. intros status' data' E.
    injection E as <- <-.
    unfold PortfolioValueChart, fetchStockPrices, deriveEffect, mounted;
      cbn [stockPrices portfolioData console derivations uncaught app].
    destruct (calculatePortfolioValue GOOGL data) as [out |] eqn:E;
      cbn [stockPrices portfolioData console derivations uncaught app].
    + repeat split; auto.
    + repeat split; auto;
        destruct (calculatePortfolioValue_total GOOGL H) as [o Ho]; congruence.
  - split; [| split]; [intros _; cbn; auto | cbn; congruence | discriminate].
  - split; [| split]; [intros _; cbn; auto | cbn; congruence | discriminate].
  - split; [| split]; [intros _; cbn; auto | cbn; congruence | discriminate].
Qed.


(** C10, as the code has it: when no transaction is a Buy, no quantity is
    negative and every timestamp of the prices is a valid date, the result
    is the empty sequence. *)
Theorem C10_no_buy_no_points (transactions : list Transaction)
    (prices : StockPriceData) :
  Forall (fun t => action t <> Buy) transactions ->
  Forall (fun t => 0 <= quantity t) transactions ->
  Forall (fun e => validTimestamp (timestamp (snd e))) prices ->
  calculatePortfolioValue transactions prices = Some [].
Proof.
  intros Hb Hq Hv.
  destruct (@formatStockPrices_total prices []) as [fp Hfp].
  { rewrite Forall_forall in *. intros e He. specialize (Hv e He).
    unfold keyOf. intros E. apply formatDate_None in E.
    unfold validTimestamp in Hv. lia. }
  unfold calculatePortfolioValue. rewrite (derive_spec _ _ Hfp). f_equal.
  set (sorted := sort compareTransactions transactions).
  set (days := sortedDatesOf sorted fp).
  assert (Hs : Forall (fun t => signedQuantity t <= 0) sorted).
  { rewrite Forall_forall in *. intros t Ht. apply sort_In in Ht.
    specialize (Hb t Ht). specialize (Hq t Ht). unfold signedQuantity.
    destruct (action t); [congruence | lia]. }
  assert (He : forall l, filter (emits sorted fp days) l = []).
  { induction l as [| d l IH]; cbn [filter]; [reflexivity |].
    unfold emits at 1. destruct (get d fp); [| exact IH].
    pose proof (sharesHeld_nonpos (through d days) Hs) as Hle.
    destruct (Z.ltb_spec 0 (sharesHeld sorted (through d days))); [lia | exact IH]. }
  now rewrite He.
Qed.

(* ================================================================== *)
(** * Further properties of the code *)
(* ================================================================== *)

(** ** Days in the order of the calendar *)

Lemma dayFormatted_time (s : string) :
  dayFormatted s ->
  exists D, s = isoDay D /\ getTime s = Some (D * msPerDay).
Proof.
  intros [epoch H]. exists (Day (epoch * 1000)). split.
  - now apply formatDate_Some in H.
  - now apply getTime_formatDate.
Qed.

Lemma dayFormatted_inj (a b : string) :
  dayFormatted a -> dayFormatted b -> timeOr0 a = timeOr0 b -> a = b.
Proof.
  intros Ha Hb E.
  destruct (dayFormatted_time Ha) as (Da & -> & Ta).
  destruct (dayFormatted_time Hb) as (Db & -> & Tb).
  unfold timeOr0 in E. rewrite Ta, Tb in E. unfold msPerDay in E.
  f_equal. lia.
Qed.

Lemma key_dayFormatted (prices : StockPriceData) (fp : Dict Z) (k : string) :
  formatStockPrices prices [] = Some fp -> In k (keys fp) -> dayFormatted k.
Proof.
  intros H Hk. destruct (@formatStockPrices_keys prices fp k H Hk) as (e & _ & He).
  now exists (timestamp (snd e)).
Qed.

(** When every date is written as [formatDate] writes it, the days are
    walked in the strict order of their times. *)
Lemma sortedDatesOf_strict (sorted : list Transaction)
    (prices : StockPriceData) (fp : Dict Z) :
  formatStockPrices prices [] = Some fp ->
  (forall t, In t sorted -> dayFormatted (date t)) ->
  StronglySorted (fun a b => timeOr0 a < timeOr0 b) (sortedDatesOf sorted fp).
Proof.
  intros H Hd.
  assert (Hf : forall d, In d (sortedDatesOf sorted fp) -> dayFormatted d).
  { intros d Hin. apply sortedDatesOf_In in Hin as [(t & Ht & <-) | Hk]; auto.
    exact (@key_dayFormatted prices fp d H Hk). }
  apply StronglySorted_refine with (R := fun a b => timeOr0 a <= timeOr0 b).
  - apply sortedDatesOf_sorted. intros d Hin.
    assert (Hdf : dayFormatted d).
    { apply Hf, sortedDatesOf_In. apply in_app_iff in Hin as [Hin | Hin]; [left | now right].
      apply in_map_iff in Hin as (t & E & Ht). eauto. }
    destruct (dayFormatted_time Hdf) as (D & _ & T). congruence.
  - apply sortedDatesOf_NoDup.
  - intros a b Ha Hb Hle Hne.
    assert (timeOr0 a <> timeOr0 b); [| lia].
    intros E. apply Hne. apply dayFormatted_inj; auto.
Qed.

Section StrictOrder.

Variable A : Type.
Variable key : A -> Z.

(** Two lists in the strict order of their keys with the same elements are
    one list. *)
Lemma strictly_sorted_unique (l1 l2 : list A) :
  StronglySorted (fun a b => key a < key b) l1 ->
  StronglySorted (fun a b => key a < key b) l2 ->
  (forall x, In x l1 <-> In x l2) ->
  l1 = l2.
Proof.
  intros H1. revert l2. induction H1 as [| x l1 Hs1 IH Hx]; intros l2 H2 Hin.
  - destruct l2 as [| y l2]; [reflexivity |].
    destruct (proj2 (Hin y) (or_introl eq_refl)).
  - destruct H2 as [| y l2 Hs2 Hy].
    + destruct (proj1 (Hin x) (or_introl eq_refl)).
    + rewrite Forall_forall in Hx, Hy.
      assert (E : x = y).
      { destruct (proj1 (Hin x) (or_introl eq_refl)) as [E | Hxl2]; [now symmetry |].
        destruct (proj2 (Hin y) (or_introl eq_refl)) as [E | Hyl1]; [exact E |].
        specialize (Hx y Hyl1). specialize (Hy x Hxl2). lia. }
      subst y. f_equal. apply IH; [exact Hs2 |].
      intros z. split; intros Hz.
      * destruct (proj1 (Hin z) (or_intror Hz)) as [E | Hz2]; [| exact Hz2].
        subst z. specialize (Hx x Hz). lia.
      * destruct (proj2 (Hin z) (or_intror Hz)) as [E | Hz1]; [| exact Hz1].
        subst z. specialize (Hy x Hz). lia.
Qed.

End StrictOrder.

(** In the strict order of the times the days up to [d] are the days that
    are not later than [d]. *)
Lemma through_sorted (days : list string) (d x : string) :
  StronglySorted (fun a b => timeOr0 a < timeOr0 b) days ->
  In d days -> In x days ->
  (In x (through d days) <-> timeOr0 x <= timeOr0 d).
Proof.
  induction 1 as [| y days Hs IH Hy]; intros Hd Hx; [destruct Hd |].
  rewrite Forall_forall in Hy. cbn [through].
  destruct (String.eqb_spec y d) as [-> | Hne].
  - cbn [In]. destruct Hx as [-> | Hx]; [intuition lia |].
    specialize (Hy x Hx). split; [intros [-> | []]; lia | lia].
  - destruct Hd as [Hd | Hd]; [congruence |].
    specialize (Hy d Hd) as Hyd. cbn [In].
    destruct Hx as [-> | Hx]; [intuition lia |].
    rewrite (IH Hd Hx). split; [intros [-> | Hle]; [lia | exact Hle] | auto].
Qed.

Lemma sumZ_filter_ext (l : list Transaction) (p q : Transaction -> bool) :
  (forall t, In t l -> p t = q t) ->
  sumZ (map signedQuantity (filter p l)) = sumZ (map signedQuantity (filter q l)).
Proof. intros H. now rewrite (filter_ext_in _ _ _ H). Qed.

(** The count of shares on a day is the net quantity of the transactions
    dated on or before it. *)
Lemma sharesHeld_netUpTo (transactions : list Transaction)
    (prices : StockPriceData) (fp : Dict Z) (d : string) :
  formatStockPrices prices [] = Some fp ->
  Forall (fun t => dayFormatted (date t)) transactions ->
  In d (sortedDatesOf (sort compareTransactions transactions) fp) ->
  sharesHeld (sort compareTransactions transactions)
    (through d (sortedDatesOf (sort compareTransactions transactions) fp))
  = netUpTo transactions d.
Proof.
  intros H Hdf Hd.
  set (sorted := sort compareTransactions transactions) in *.
  set (days := sortedDatesOf sorted fp) in *.
  assert (Hsd : forall t, In t sorted -> dayFormatted (date t)).
  { intros t Ht. apply sort_In in Ht. rewrite Forall_forall in Hdf. auto. }
  pose proof (@sortedDatesOf_strict sorted prices fp H Hsd) as Hstrict. fold days in Hstrict.
  rewrite sharesHeld_sum by (apply through_NoDup, sortedDatesOf_NoDup).
  unfold netUpTo. rewrite <- (sumZ_filter_perm _ (sort_perm compareTransactions transactions)).
  fold sorted. apply sumZ_filter_ext. intros t Ht.
  assert (Hin : In (date t) days).
  { apply sortedDatesOf_In. left. eauto. }
  pose proof (@through_sorted days d (date t) Hstrict Hd Hin) as Hiff.
  destruct (existsb (String.eqb (date t)) (through d days)) eqn:E.
  - apply existsb_eqb in E. symmetry. apply Z.leb_le. now apply Hiff.
  - symmetry. apply Z.leb_gt.
    destruct (Z.le_gt_cases (timeOr0 (date t)) (timeOr0 d)) as [Hle | Hgt]; [| lia].
    apply Hiff in Hle. apply existsb_eqb in Hle. congruence.
Qed.


(** The result is a function of the dates that occur, of the net
    quantities and of the price of each day. *)
Lemma calculatePortfolioValue_determined (txs txs' : list Transaction)
    (prices prices' : StockPriceData) (fp fp' : Dict Z) :
  formatStockPrices prices [] = Some fp ->
  formatStockPrices prices' [] = Some fp' ->
  Forall (fun t => dayFormatted (date t)) txs ->
  Forall (fun t => dayFormatted (date t)) txs' ->
  (forall k, get k fp = get k fp') ->
  (forall d, netUpTo txs d = netUpTo txs' d) ->
  (forall d, (exists t, In t txs /\ date t = d) <->
             (exists t, In t txs' /\ date t = d)) ->
  calculatePortfolioValue txs prices = calculatePortfolioValue txs' prices'.
Proof.
  intros H H' Hdf Hdf' Hget Hnet Hdates.
  unfold calculatePortfolioValue. rewrite (derive_spec _ _ H), (derive_spec _ _ H').
  pose proof (fun d => @sharesHeld_netUpTo txs prices fp d H Hdf) as N.
  pose proof (fun d => @sharesHeld_netUpTo txs' prices' fp' d H' Hdf') as N'.
  assert (Hin : forall t, In t (sort compareTransactions txs) <-> In t txs)
    by (intros t; apply sort_In).
  assert (Hin' : forall t, In t (sort compareTransactions txs') <-> In t txs')
    by (intros t; apply sort_In).
  remember (sort compareTransactions txs) as sorted eqn:Es.
  remember (sort compareTransactions txs') as sorted' eqn:Es'.
  assert (Hs : forall t, In t sorted -> dayFormatted (date t)).
  { intros t Ht. apply Hin in Ht. rewrite Forall_forall in Hdf. auto. }
  assert (Hs' : forall t, In t sorted' -> dayFormatted (date t)).
  { intros t Ht. apply Hin' in Ht. rewrite Forall_forall in Hdf'. auto. }
  assert (Hdays : sortedDatesOf sorted fp = sortedDatesOf sorted' fp').
  { apply strictly_sorted_unique with (key := timeOr0).
    - exact (@sortedDatesOf_strict sorted prices fp H Hs).
    - exact (@sortedDatesOf_strict sorted' prices' fp' H' Hs').
    - intros d. rewrite !sortedDatesOf_In, !keys_get, Hget.
      assert (E : (exists t, In t sorted /\ date t = d) <->
                  (exists t, In t sorted' /\ date t = d)).
      { split; intros (t & Ht & E).
        - apply Hin in Ht.
          destruct (proj1 (Hdates d) (ex_intro _ t (conj Ht E))) as (t' & Ht' & E').
          exists t'. split; [now apply Hin' | exact E'].
        - apply Hin' in Ht.
          destruct (proj2 (Hdates d) (ex_intro _ t (conj Ht E))) as (t' & Ht' & E').
          exists t'. split; [now apply Hin | exact E']. }
      now rewrite E. }
  rewrite <- Hdays in *. f_equal.
  remember (sortedDatesOf sorted fp) as days eqn:Ed.
  assert (Hheld : forall d, In d days ->
            sharesHeld sorted (through d days) = sharesHeld sorted' (through d days)).
  { intros d Hd. now rewrite (N d Hd), (N' d Hd). }
  assert (Hfilter : filter (emits sorted fp days) days
                    = filter (emits sorted' fp' days) days).
  { apply filter_ext_in. intros d Hd. unfold emits.
    now rewrite <- Hget, (Hheld d Hd). }
  rewrite <- Hfilter. apply map_ext_in. intros d Hd.
  apply filter_In in Hd as [Hd _]. unfold pointOn.
  now rewrite <- Hget, (Hheld d Hd).
Qed.

Lemma formatStockPrices_valid (es : StockPriceData) :
  forall o fp, formatStockPrices es o = Some fp ->
  Forall (fun e => validTimestamp (timestamp (snd e))) es.
Proof.
  induction es as [| [epoch pd] es IH]; intros o fp H; [constructor |].
  cbn [formatStockPrices] in H.
  destruct (formatDate (timestamp pd)) as [k |] eqn:E; [| discriminate].
  constructor; [| eapply IH; exact H].
  cbn [snd]. now apply formatDate_Some in E.
Qed.

Lemma formatStockPrices_of_valid (es : StockPriceData) :
  Forall (fun e => validTimestamp (timestamp (snd e))) es ->
  exists fp, formatStockPrices es [] = Some fp.
Proof.
  intros Hv. apply formatStockPrices_total.
  rewrite Forall_forall in *. intros e He. specialize (Hv e He).
  unfold keyOf. intros E. apply formatDate_None in E.
  unfold validTimestamp in Hv. lia.
Qed.

Lemma assign_length (V : Type) (k : string) (v : V) (o : Dict V) :
  (List.length (assign k v o) <= S (List.length o))%nat.
Proof.
  induction o as [| [k' v'] o IH]; cbn [assign List.length]; [lia |].
  destruct (String.eqb k' k); cbn [List.length]; lia.
Qed.

Lemma formatStockPrices_length (es : StockPriceData) :
  forall o fp, formatStockPrices es o = Some fp ->
  (List.length fp <= List.length o + List.length es)%nat.
Proof.
  induction es as [| [epoch pd] es IH]; intros o fp H; cbn [formatStockPrices] in H.
  - injection H as <-. cbn [List.length]. lia.
  - destruct (formatDate (timestamp pd)) as [k |]; [| discriminate].
    apply IH in H. pose proof (assign_length k (close pd) o).
    cbn [List.length]. lia.
Qed.

(** With distinct days, the price of a day is the close of the entry of
    that day. *)
Lemma get_of_distinct_days (prices : StockPriceData) (fp : Dict Z)
    (k : string) (c : Z) :
  formatStockPrices prices [] = Some fp ->
  NoDup (map keyOf prices) ->
  (get k fp = Some c <->
   exists e, In e prices /\ keyOf e = Some k /\ close (snd e) = c).
Proof.
  intros H Hnd. rewrite (@formatStockPrices_get prices [] fp H k c). split.
  - intros [(before & e & after & -> & Hk & Hc & _) | [_ Hg]]; [| discriminate].
    exists e. split; [apply in_elt | auto].
  - intros (e & He & Hk & Hc). left.
    destruct (in_split _ _ He) as (before & after & ->).
    exists before, e, after. repeat split; auto.
    rewrite map_app in Hnd. cbn [map] in Hnd. apply NoDup_remove_2 in Hnd.
    apply Forall_forall. intros e' He' E. apply Hnd.
    apply in_or_app. right. rewrite Hk, <- E. now apply in_map.
Qed.

Lemma currentShares_walk (sorted : list Transaction) (fp : Dict Z)
    (days : list string) (w : Walk) :
  currentShares (fold_left (visitDate sorted fp) days w)
  = fold_left
      (fun held day => fold_left applyTransaction (filter (dated day) sorted) held)
      days (currentShares w).
Proof.
  revert w. induction days as [| d days IH]; intros w; cbn [fold_left]; [reflexivity |].
  rewrite IH. f_equal. unfold visitDate.
  destruct (get d fp); [destruct (0 <? _) |]; reflexivity.
Qed.




(** ** The properties *)


(** X2: when every transaction date is written as [formatDate] writes a
    day and the quantities add up exactly, the order of the transactions
    in the array does not matter: any rearrangement of the array gives the
    same result. *)
Theorem X2_transaction_order_irrelevant (txs txs' : list Transaction)
    (prices : StockPriceData) :
  Permutation txs txs' ->
  countsExactly txs ->
  Forall (fun t => dayFormatted (date t)) txs ->
  calculatePortfolioValue txs prices = calculatePortfolioValue txs' prices.
Proof.
  intros Hp _ Hdf.
  destruct (formatStockPrices prices []) as [fp |] eqn:H.
  - apply (@calculatePortfolioValue_determined txs txs' prices prices fp fp);
      auto.
    + exact (Permutation_Forall Hp Hdf).
    + intros d. unfold netUpTo. now apply sumZ_filter_perm.
    + intros d. split; intros (t & Ht & E); exists t; split; auto.
      * exact (Permutation_in _ Hp Ht).
      * exact (Permutation_in _ (Permutation_sym Hp) Ht).
  - unfold calculatePortfolioValue, derive. now rewrite H.
Qed.

(** X3: whatever the dates are, no two points of the result have the same
    date string, and the result has at most as many points as there are
    price entries and names of [Object.prototype] among the dates of the
    transactions; when no transaction is dated by such a name there are at
    most as many points as price entries. *)
Theorem X3_points_distinct_and_bounded (transactions : list Transaction)
    (prices : StockPriceData) (out : list Pushed) :
  conforming ->
  calculatePortfolioValue_engine transactions prices = Some out ->
  NoDup (map pushedDate out) /\
  (List.length out
   <= List.length prices
      + List.length
          (filter (fun k => existsb (String.eqb k) (map date transactions))
             inheritedNames))%nat /\
  (Forall (fun t => inherited (date t) = false) transactions ->
   (List.length out <= List.length prices)%nat).
Proof.
  intros Hc Hout.
  destruct (formatStockPrices prices []) as [fp |] eqn:H;
    [| unfold calculatePortfolioValue_engine in Hout; now rewrite H in Hout].
  rewrite (@calculatePortfolioValue_engine_spec transactions prices fp Hc H) in Hout.
  injection Hout as <-.
  set (sorted := engineSort compareTransactions transactions).
  set (days := sortedDates_engine sorted fp).
  set (named := filter (fun k => existsb (String.eqb k) (map date transactions))
                  inheritedNames).
  assert (Hnd : NoDup (filter (emitsMember sorted fp days) days))
    by apply NoDup_filter, sortedDates_engine_NoDup, Hc.
  assert (Hk : (List.length (keys fp) <= List.length prices)%nat).
  { unfold keys. rewrite length_map.
    apply (@formatStockPrices_length prices [] fp) in H. cbn [List.length] in H. lia. }
  assert (Hlen : (List.length (filter (emitsMember sorted fp days) days)
                  <= List.length (keys fp) + List.length named)%nat).
  { rewrite <- length_app. apply NoDup_incl_length; [exact Hnd |].
    intros d Hd. apply filter_In in Hd as [Hin He]. unfold emitsMember in He.
    apply in_or_app.
    destruct (member d fp) as [c | |] eqn:M; [| | discriminate].
    - left. apply member_own in M. apply keys_get. congruence.
    - right. apply member_inherited in M as [Hg Hi]. apply filter_In.
      split; [now apply inherited_In |]. apply existsb_eqb.
      apply (@sortedDates_engine_In transactions fp d Hc) in Hin.
      destruct Hin as [(t & Ht & <-) | Hin]; [now apply in_map |].
      apply keys_get in Hin. congruence. }
  split; [| split].
  - rewrite map_map. erewrite map_ext; [rewrite map_id; exact Hnd |].
    intros d. apply pushedOn_date.
  - rewrite length_map. lia.
  - intros Hn. rewrite length_map.
    assert (E : named = []).
    { destruct named as [| k rest] eqn:En; [reflexivity |]. exfalso.
      assert (Hin : In k named) by (rewrite En; now left).
      apply filter_In in Hin as [Hi Hd]. apply inherited_In in Hi.
      apply existsb_eqb in Hd. apply in_map_iff in Hd as (t & E & Ht).
      rewrite Forall_forall in Hn. specialize (Hn t Ht). congruence. }
    rewrite E in Hlen. cbn [List.length] in Hlen. lia.
Qed.

(** X4: with no price entry the call returns, whatever the transactions
    are, also when their dates cannot be read; every point of the result
    is then a point of the value [NaN] on a transaction date that names a
    member of [Object.prototype], and without such a date the result is the
    empty sequence. *)
Theorem X4_no_prices_no_points (transactions : list Transaction) :
  conforming ->
  exists out,
    calculatePortfolioValue_engine transactions [] = Some out /\
    (forall q, In q out ->
       q = NaNPoint (pushedDate q) /\ inherited (pushedDate q) = true /\
       exists t, In t transactions /\ date t = pushedDate q) /\
    (Forall (fun t => inherited (date t) = false) transactions -> out = []).
Proof.
  intros Hc. eexists.
  split; [exact (@calculatePortfolioValue_engine_spec transactions [] [] Hc eq_refl) |].
  set (sorted := engineSort compareTransactions transactions).
  set (days := sortedDates_engine sorted []).
  assert (Hq : forall q,
             In q (map (pushedOn sorted [] days) (filter (emitsMember sorted [] days) days)) ->
             q = NaNPoint (pushedDate q) /\ inherited (pushedDate q) = true /\
             exists t, In t transactions /\ date t = pushedDate q).
  { intros q Hq.
    apply pushed_In in Hq as (Hin & _ & [(c & Hg & _) | (_ & Hi & E)]);
      [discriminate |].
    split; [exact E |]. split; [exact Hi |].
    apply (@sortedDates_engine_In transactions [] (pushedDate q) Hc) in Hin.
    destruct Hin as [Ht | []]. exact Ht. }
  split; [exact Hq |].
  intros Hn.
  destruct (map (pushedOn sorted [] days) (filter (emitsMember sorted [] days) days))
    as [| q rest]; [reflexivity |]. exfalso.
  destruct (Hq q (or_introl eq_refl)) as (_ & Hi & t & Ht & E).
  rewrite Forall_forall in Hn. specialize (Hn t Ht). congruence.
Qed.

Lemma filter_either (A : Type) (f g : A -> bool) (l : list A) :
  (forall x, In x l -> f x = true -> g x = false) ->
  Permutation (filter (fun x => f x || g x) l) (filter f l ++ filter g l).
Proof.
  induction l as [| x l IH]; intros Hd; cbn [filter]; [constructor |].
  assert (IHl : Permutation (filter (fun x => f x || g x) l) (filter f l ++ filter g l))
    by (apply IH; intros y Hy; apply Hd; now right).
  destruct (f x) eqn:Ef.
  - rewrite (Hd x (or_introl eq_refl) Ef). cbn [orb app]. now constructor.
  - cbn [orb]. destruct (g x); [| exact IHl].
    now apply Permutation_cons_app.
Qed.

(** Over distinct days the walk applies the transactions whose date is one
    of the days, each of them once. *)
Lemma appliedThrough_perm (txs : list Transaction) (visited : list string) :
  NoDup visited ->
  Permutation (appliedThrough txs visited)
    (filter (fun t => existsb (String.eqb (date t)) visited) txs).
Proof.
  unfold appliedThrough.
  induction 1 as [| d visited Hd Hnd IH]; cbn [flat_map existsb].
  - induction txs as [| t txs IHt]; cbn [filter]; [constructor | exact IHt].
  - rewrite IH. symmetry.
    rewrite (@filter_ext _ (fun t => String.eqb (date t) d
                                    || existsb (String.eqb (date t)) visited)
               (fun t => dated d t || existsb (String.eqb (date t)) visited))
      by reflexivity.
    apply filter_either. intros t _ E. unfold dated in E.
    apply String.eqb_eq in E.
    destruct (existsb (String.eqb (date t)) visited) eqn:Ex; [| reflexivity].
    apply existsb_eqb in Ex. congruence.
Qed.

(** X5: the walk applies every transaction exactly once, whatever the dates
    and the prices are: the transactions applied over the days are the
    transactions of the array in another order, and the count after the
    last day is the count of them; when the quantities add up exactly that
    count is the sum of the quantities bought less the sum of the
    quantities sold. *)
Theorem X5_every_transaction_counted (transactions : list Transaction)
    (fp : Dict Z) :
  conforming ->
  let sorted := engineSort compareTransactions transactions in
  let days := sortedDates_engine sorted fp in
  Permutation (appliedThrough sorted days) transactions /\
  shares (fold_left (visitDate_engine sorted fp) days (mkEngineWalk 0 []))
  = fold_left applyTransaction (appliedThrough sorted days) 0 /\
  (countsExactly transactions ->
   shares (fold_left (visitDate_engine sorted fp) days (mkEngineWalk 0 []))
   = sumZ (map signedQuantity transactions)).
Proof.
  intros Hc sorted days.
  assert (Hnd : NoDup days) by exact (sortedDates_engine_NoDup sorted fp Hc).
  assert (Hall : filter (fun t => existsb (String.eqb (date t)) days) sorted = sorted).
  { rewrite <- (@filter_ext_in _ (fun _ => true)).
    - clear. induction sorted as [| t l IH]; cbn [filter]; congruence.
    - intros t Ht. symmetry. apply existsb_eqb.
      apply (@sortedDates_engine_In transactions fp (date t) Hc). left.
      exists t. split; [| reflexivity].
      now apply (engineSort_In compareTransactions transactions t Hc). }
  split; [| split].
  - rewrite (appliedThrough_perm sorted Hnd), Hall.
    now apply engineSort_perm.
  - rewrite shares_walk_engine. cbn [shares]. apply fold_days_applied.
  - intros _. rewrite shares_walk_engine. cbn [shares].
    change (sharesHeld sorted days = sumZ (map signedQuantity transactions)).
    rewrite (sharesHeld_sum sorted Hnd), Hall.
    assert (Hp : Permutation sorted transactions) by now apply engineSort_perm.
    clear - Hp. induction Hp as [| x l l' Hp IH | x y l | l l' l'' H1 IH1 H2 IH2];
      cbn [map sumZ fold_right] in *; unfold sumZ in *; lia.
Qed.


(** X7: the key of a timestamp reads back, by [Date], as the midnight at
    or before the instant and less than a day before it, and formatting
    that midnight gives the key again. *)
Theorem X7_formatDate_round_trip (epoch : Z) (k : string) :
  formatDate epoch = Some k ->
  exists t,
    getTime k = Some t /\
    t <= epoch * 1000 < t + msPerDay /\
    formatDate (t / 1000) = Some k.
Proof.
  intros H. pose proof (getTime_formatDate _ H) as T.
  apply formatDate_Some in H as [Hr ->].
  exists (Day (epoch * 1000) * msPerDay). split; [exact T |].
  destruct (@Day_range (epoch * 1000) Hr) as [HD HDt].
  set (D := Day (epoch * 1000)) in *.
  split.
  - unfold D, Day, msPerDay. divmod.
  - apply formatDate_Some.
    assert (E : D * msPerDay / 1000 * 1000 = D * msPerDay)
      by (unfold msPerDay; divmod).
    rewrite E. split; [exact HDt |].
    unfold Day. now rewrite Z.div_mul by (unfold msPerDay; lia).
Qed.

(** X8: the comparator of the sort orders the keys of two timestamps as the
    timestamps: for a timestamp that is not later, the difference it
    returns is not positive, and it is 0 for equal keys only. *)
Theorem X8_keys_compare_as_timestamps (epoch1 epoch2 : Z) (k1 k2 : string) :
  formatDate epoch1 = Some k1 ->
  formatDate epoch2 = Some k2 ->
  epoch1 <= epoch2 ->
  exists v, compareDates k1 k2 = Some v /\ v <= 0 /\ (v = 0 <-> k1 = k2).
Proof.
  intros H1 H2 Hle.
  pose proof (getTime_formatDate _ H1) as T1.
  pose proof (getTime_formatDate _ H2) as T2.
  apply formatDate_Some in H1 as [_ ->]. apply formatDate_Some in H2 as [_ ->].
  unfold compareDates. rewrite T1, T2. eexists. split; [reflexivity |].
  assert (HD : Day (epoch1 * 1000) <= Day (epoch2 * 1000)).
  { unfold Day, msPerDay. apply Z.div_le_mono; lia. }
  split; [unfold msPerDay; lia |]. split.
  - intros E. f_equal. unfold msPerDay in E. lia.
  - intros E. rewrite E in T1. rewrite T2 in T1. injection T1 as T1. lia.
Qed.

(** X9: when every transaction date is written as [formatDate] writes a
    day and no two price entries are of one day, the order in which the
    entries of the prices are iterated does not matter. *)
Theorem X9_price_order_irrelevant (transactions : list Transaction)
    (prices prices' : StockPriceData) :
  Permutation prices prices' ->
  NoDup (map keyOf prices) ->
  Forall (fun t => dayFormatted (date t)) transactions ->
  calculatePortfolioValue transactions prices
  = calculatePortfolioValue transactions prices'.
Proof.
  intros Hp Hnd Hdf.
  assert (Hnd' : NoDup (map keyOf prices'))
    by exact (Permutation_NoDup (Permutation_map keyOf Hp) Hnd).
  destruct (formatStockPrices prices []) as [fp |] eqn:H.
  - pose proof (@formatStockPrices_valid prices [] fp H) as Hv.
    destruct (formatStockPrices_of_valid (Permutation_Forall Hp Hv)) as [fp' H'].
    apply (@calculatePortfolioValue_determined
             transactions transactions prices prices' fp fp'); auto; [| tauto].
    intros k. destruct (get k fp) as [c |] eqn:G.
    + apply (@get_of_distinct_days prices fp k c H Hnd) in G as (e & He & Hk & Hc).
      symmetry. apply (@get_of_distinct_days prices' fp' k c H' Hnd').
      exists e. split; [exact (Permutation_in _ Hp He) | auto].
    + destruct (get k fp') as [c |] eqn:G'; [| reflexivity].
      apply (@get_of_distinct_days prices' fp' k c H' Hnd') in G' as (e & He & Hk & Hc).
      rewrite <- G. apply (@get_of_distinct_days prices fp k c H Hnd).
      exists e. split; [exact (Permutation_in _ (Permutation_sym Hp) He) | auto].
  - assert (H' : formatStockPrices prices' [] = None).
    { destruct (formatStockPrices prices' []) as [fp' |] eqn:H'; [| reflexivity].
      pose proof (@formatStockPrices_valid prices' [] fp' H') as Hv.
      destruct (formatStockPrices_of_valid
                  (Permutation_Forall (Permutation_sym Hp) Hv)) as [fp Hfp].
      congruence. }
    unfold calculatePortfolioValue, derive. now rewrite H, H'.
Qed.

(** X10: the call throws exactly when the timestamp of some price entry is
    outside the range of [Date], whatever the transactions are. *)
Theorem X10_throws_on_invalid_timestamp (transactions : list Transaction)
    (prices : StockPriceData) :
  calculatePortfolioValue transactions prices = None <->
  ~ Forall (fun e => validTimestamp (timestamp (snd e))) prices.
Proof.
  split.
  - intros Hn Hv. destruct (@calculatePortfolioValue_total transactions prices Hv) as [o Ho].
    congruence.
  - intros Hn. unfold calculatePortfolioValue, derive.
    destruct (formatStockPrices prices []) as [fp |] eqn:H; [| reflexivity].
    exfalso. apply Hn. exact (@formatStockPrices_valid prices [] fp H).
Qed.

End Chart.

(* ================================================================== *)
(** * The properties on the sample data *)
(* ================================================================== *)

(** ** The scenarios of the specification *)

Example formatDate_midnight : formatDate 1609718400 = Some "2021-01-04"%string.
Proof. vm_compute. reflexivity. Qed.

Example formatDate_last_second : formatDate 1609804799 = Some "2021-01-04"%string.
Proof. vm_compute. reflexivity. Qed.

Example formatDate_before_epoch : formatDate (-1) = Some "1969-12-31"%string.
Proof. vm_compute. reflexivity. Qed.

Example formatDate_beyond_range : formatDate 10000000000000 = None.
Proof. vm_compute. reflexivity. Qed.

Example scenario_buy_only :
  calculatePortfolioValue noHeuristics buyFive twoDays
  = Some [mkPoint "2021-01-04" 500; mkPoint "2021-01-05" 550].
Proof. vm_compute. reflexivity. Qed.

Example scenario_buy_then_full_sell :
  calculatePortfolioValue noHeuristics buyThenSell twoDays
  = Some [mkPoint "2021-01-04" 500].
Proof. vm_compute. reflexivity. Qed.

Example scenario_price_missing_for_held_day :
  calculatePortfolioValue noHeuristics buyFive laterDay
  = Some [mkPoint "2021-01-06" 600].
Proof. vm_compute. reflexivity. Qed.

Example scenario_same_day_observations :
  formatStockPrices sameDay [] = Some [("2021-01-04"%string, 105)].
Proof. vm_compute. reflexivity. Qed.

(** The order of two spellings of one day follows the order of the
    transactions. *)
Example scenario_two_spellings_reversed :
  calculatePortfolioValue readsInstant (rev twoSpellings) twoDays
  = Some [mkPoint "2021-01-04" 600; mkPoint "2021-01-05" 660].
Proof. vm_compute. reflexivity. Qed.

(** Sorting the array of the caller itself, without the copy, would change
    it. *)
Example sortCallerArray_changes_the_array :
  sortCallerArray noHeuristics 0%nat [TransactionArray laterFirst]
  = Some [TransactionArray (rev laterFirst)].
Proof. vm_compute. reflexivity. Qed.

(** ** Instances of the properties *)

Lemma sort_conforming (implParse : string -> option Z) :
  Forall (fun k => getTime implParse k = None) inheritedNames ->
  conforming implParse (@sort).
Proof.
  intros Hn. split; [| split; [| exact Hn]].
  - intros A comparefn l. apply sort_perm.
  - intros A comparefn key l Hc. split.
    + now apply sort_sorted.
    + intros k. now apply sort_stable.
Qed.

Lemma noHeuristics_conforming : conforming noHeuristics (@sort).
Proof.
  apply sort_conforming. unfold inheritedNames.
  repeat (apply Forall_cons; [vm_compute; reflexivity |]). apply Forall_nil.
Qed.




Lemma C2_one_point_per_day_witness :
  NoDup (calendarDays noHeuristics
           [NumberPoint (mkPoint "2021-01-04" 500);
            NumberPoint (mkPoint "2021-01-05" 1100)]) /\
  ascendingPushed noHeuristics
    [NumberPoint (mkPoint "2021-01-04" 500);
     NumberPoint (mkPoint "2021-01-05" 1100)].
Proof.
  assert (Hd : Forall (fun t => getTime noHeuristics (date t) <> None) laterFirst)
    by (repeat constructor; vm_compute; discriminate).
  assert (Ho : calculatePortfolioValue_engine noHeuristics (@sort) laterFirst twoDays
               = Some [NumberPoint (mkPoint "2021-01-04" 500);
                       NumberPoint (mkPoint "2021-01-05" 1100)])
    by (vm_compute; reflexivity).
  destruct (@C2_one_point_per_day noHeuristics (@sort) laterFirst twoDays _
              noHeuristics_conforming Ho)
    as (_ & Hcal & _ & Hasc).
  split; [exact Hcal | exact (proj1 (Hasc Hd))].
Defined.

(** C2 as it is stated fails.  For a transaction whose date is no date the
    comparator of the sort answers NaN, the three days then compare equal
    from neighbour to neighbour and stay as they are, and the points come
    out of order.  And a Buy dated [toString] gives a point whose date is
    no key of the prices. *)
Lemma C2_counterexample :
  (calculatePortfolioValue_engine noHeuristics (@sort) unreadable twoDays
   = Some [NumberPoint (mkPoint "2021-01-05" 550);
           NumberPoint (mkPoint "2021-01-04" 1000)] /\
   ~ ascendingPushed noHeuristics
       [NumberPoint (mkPoint "2021-01-05" 550);
        NumberPoint (mkPoint "2021-01-04" 1000)]) /\
  (formatStockPrices [] [] = Some [] /\
   calculatePortfolioValue_engine noHeuristics (@sort) buyToString []
   = Some [NaNPoint "toString"] /\
   ~ In "toString"%string (keys (@nil (string * Z)))).
Proof.
  split; [split | split; [| split]].
  - vm_compute. reflexivity.
  - intros H. inversion H as [| ? ? _ Hall]; subst.
    inversion Hall as [| ? ? Hlt _]; subst.
    vm_compute in Hlt. discriminate.
  - reflexivity.
  - vm_compute. reflexivity.
  - intros [].
Qed.



Lemma C4_last_write_witness :
  formatStockPrices sameDay [] = Some [("2021-01-04"%string, 105)] /\
  exists before e after,
    sameDay = before ++ e :: after /\ keyOf e = Some "2021-01-04"%string /\
    close (snd e) = 105 /\
    Forall (fun e' => keyOf e' <> Some "2021-01-04"%string) after.
Proof.
  assert (H : formatStockPrices sameDay [] = Some [("2021-01-04"%string, 105)])
    by (vm_compute; reflexivity).
  split; [exact H |].
  apply (proj1 (proj2 (proj2 (@C4_day_keys_last_write_wins noHeuristics sameDay _ H)))).
  vm_compute. reflexivity.
Defined.

Lemma C5_arguments_witness :
  exists h' result,
    calculatePortfolioValueAt noHeuristics 0%nat 1%nat
      [TransactionArray laterFirst; PriceObject twoDays] = Some (h', result) /\
    readArray 0%nat h' = Some laterFirst /\ entries 1%nat h' = Some twoDays.
Proof.
  destruct (@C5_arguments_unchanged noHeuristics
              [TransactionArray laterFirst; PriceObject twoDays] 0%nat 1%nat
              laterFirst twoDays eq_refl eq_refl)
    as (h' & result & E & _ & Ht & Hp & _).
  exists h', result. auto.
Defined.

Lemma C6_deterministic_witness :
  exists result h1' h2',
    calculatePortfolioValueAt noHeuristics 0%nat 1%nat
      [TransactionArray laterFirst; PriceObject twoDays] = Some (h1', result) /\
    calculatePortfolioValueAt noHeuristics 2%nat 0%nat
      [PriceObject twoDays; PriceObject sameDay; TransactionArray laterFirst]
    = Some (h2', result).
Proof.
  destruct (@C6_deterministic noHeuristics
              [TransactionArray laterFirst; PriceObject twoDays]
              [PriceObject twoDays; PriceObject sameDay; TransactionArray laterFirst]
              0%nat 1%nat 2%nat 0%nat laterFirst twoDays
              eq_refl eq_refl eq_refl eq_refl)
    as (result & h1' & h2' & h1'' & E1 & E2 & _).
  exists result, h1', h2'. auto.
Defined.

Lemma C7_price_witness :
  calculatePortfolioValue noHeuristics buyFive twoDays
  = calculatePortfolioValue noHeuristics buyFiveOtherPrice twoDays.
Proof.
  apply C7_price_not_used. repeat constructor.
Defined.

(** C8 as it is stated fails: after a request that succeeded, a timestamp
    beyond the range of [Date] makes the derivation throw, and nothing
    catches it. *)
Lemma C8_counterexample :
  uncaught (PortfolioValueChart noHeuristics (Responded true 200 (Some beyondRange))) = true /\
  console (PortfolioValueChart noHeuristics (Responded true 200 (Some beyondRange))) = [] /\
  calculatePortfolioValue noHeuristics GOOGL beyondRange = None.
Proof. repeat split; vm_compute; reflexivity. Qed.



Lemma C10_no_buy_witness :
  calculatePortfolioValue noHeuristics sellFive twoDays = Some [].
Proof.
  apply C10_no_buy_no_points.
  - repeat constructor. discriminate.
  - repeat constructor. cbn. lia.
  - repeat constructor; vm_compute; discriminate.
Defined.

(** C10 as it is stated fails: a Sell of a negative quantity raises the
    count of shares, and a timestamp beyond the range of [Date] makes the
    call throw. *)
Lemma C10_counterexample :
  (Forall (fun t => action t <> Buy) sellMinusFive /\
   calculatePortfolioValue noHeuristics sellMinusFive twoDays
   = Some [mkPoint "2021-01-04" 500; mkPoint "2021-01-05" 550]) /\
  calculatePortfolioValue noHeuristics [] beyondRange = None.
Proof.
  split; [split |].
  - repeat constructor. discriminate.
  - vm_compute. reflexivity.
  - vm_compute. reflexivity.
Qed.

(** ** Instances of the further properties *)

Lemma buyFive_dayFormatted : Forall (fun t => dayFormatted (date t)) buyFive.
Proof. repeat constructor. exists 1609718400. vm_compute. reflexivity. Qed.

Lemma laterFirst_dayFormatted : Forall (fun t => dayFormatted (date t)) laterFirst.
Proof.
  repeat constructor; cbn [date].
  - exists 1609804800. vm_compute. reflexivity.
  - exists 1609718400. vm_compute. reflexivity.
Qed.


Lemma laterFirst_countsExactly : countsExactly laterFirst.
Proof. vm_compute. discriminate. Qed.


Lemma X2_transaction_order_witness :
  calculatePortfolioValue noHeuristics laterFirst twoDays
  = calculatePortfolioValue noHeuristics (rev laterFirst) twoDays.
Proof.
  apply X2_transaction_order_irrelevant.
  - apply perm_swap.
  - exact laterFirst_countsExactly.
  - exact laterFirst_dayFormatted.
Defined.

Lemma X3_points_bounded_witness :
  NoDup (map pushedDate [NaNPoint "toString"]) /\
  (List.length [NaNPoint "toString"]
   <= 0 + List.length
            (filter (fun k => existsb (String.eqb k) (map date buyToString))
               inheritedNames))%nat.
Proof.
  assert (Ho : calculatePortfolioValue_engine noHeuristics (@sort) buyToString []
               = Some [NaNPoint "toString"])
    by (vm_compute; reflexivity).
  destruct (@X3_points_distinct_and_bounded noHeuristics (@sort) buyToString [] _
              noHeuristics_conforming Ho) as (Hnd & Hlen & _).
  split; [exact Hnd | exact Hlen].
Defined.

Lemma X4_no_prices_witness :
  exists out,
    calculatePortfolioValue_engine noHeuristics (@sort) unreadable [] = Some out /\
    out = [].
Proof.
  destruct (@X4_no_prices_no_points noHeuristics (@sort) unreadable
              noHeuristics_conforming) as (out & Ho & _ & Hn).
  exists out. split; [exact Ho |]. apply Hn.
  repeat constructor.
Defined.

Lemma X5_every_transaction_witness :
  shares
    (fold_left
       (visitDate_engine (sort (compareTransactions noHeuristics) unreadable) [])
       (sortedDates_engine noHeuristics (@sort)
          (sort (compareTransactions noHeuristics) unreadable) [])
       (mkEngineWalk 0 []))
  = 10.
Proof.
  pose proof (@X5_every_transaction_counted noHeuristics (@sort) unreadable []
                noHeuristics_conforming) as P.
  cbv zeta in P. destruct P as (_ & _ & Hsum).
  rewrite Hsum; [reflexivity |]. vm_compute. discriminate.
Defined.


Lemma X7_round_trip_witness :
  exists t,
    getTime noHeuristics "2021-01-04" = Some t /\
    t <= 1609761600 * 1000 < t + msPerDay /\
    formatDate (t / 1000) = Some "2021-01-04"%string.
Proof.
  apply (@X7_formatDate_round_trip noHeuristics 1609761600).
  vm_compute. reflexivity.
Defined.

Lemma X8_keys_compare_witness :
  exists v,
    compareDates noHeuristics "2021-01-04" "2021-01-05" = Some v /\ v <= 0 /\
    (v = 0 <-> "2021-01-04"%string = "2021-01-05"%string).
Proof.
  apply (@X8_keys_compare_as_timestamps noHeuristics 1609718400 1609804800).
  - vm_compute. reflexivity.
  - vm_compute. reflexivity.
  - lia.
Defined.

Lemma X9_price_order_witness :
  calculatePortfolioValue noHeuristics buyFive twoDays
  = calculatePortfolioValue noHeuristics buyFive (rev twoDays).
Proof.
  apply X9_price_order_irrelevant.
  - apply perm_swap.
  - vm_compute. repeat constructor; cbn [In]; intuition discriminate.
  - exact buyFive_dayFormatted.
Defined.
